(** * GridLLM: the OpenAI-compatible routes and the Ollama worker adapter

    A shallow embedding of
      - [server/src/routes/openai.ts]  (POST /v1/completions, GET /v1/models)
      - [client/src/services/OllamaService.ts]  (the worker-side adapter)
    and the properties of these two files that the specification states.

    Conventions of the embedding.
      - A JavaScript string is a [string]; worker output is taken to be ASCII.
      - A JavaScript number is an exact rational [Q] (every finite double is
        one), compared with [Qeq_bool]; token counts and timestamps, which the
        code only adds and floors, are [Z].
      - An optional property ([x?: T], or a property that may be [null]) is an
        [option]; [a || d] on such a property is [default d a].
      - A value of type [any] that comes out of [JSON.parse] or out of an HTTP
        body is a [JsVal]; an object is the list of its properties in the
        order in which they were added (the place that integer-like keys take
        in an enumeration is not modelled).
      - An object used as a bag of options is a [gmap] from keys to values; a
        [Map] whose iteration order matters is the list of its entries.
      - Functions of the runtime that the code calls but does not define
        ([JSON.parse], [Date], [String.prototype.localeCompare]) are section
        variables. *)

From Stdlib Require Import ZArith QArith Ascii String List Sorted Permutation.
From stdpp Require Import base option numbers list strings gmap pretty sorting.

#[local] Set Warnings "-register-all,-clear-no-such-hyp".

(** ** JavaScript values *)

Module Js.

Inductive JsVal : Type :=
| JUndefined
| JNull
| JBool (b : bool)
| JNum (q : Q)
| JNaN
| JStr (s : string)
| JArr (items : list JsVal)
| JObj (fields : list (string * JsVal)).

(** [ToBoolean]; of the numbers, zero and [NaN] are falsy. *)
Definition truthy (v : JsVal) : bool :=
  match v with
  | JUndefined | JNull | JNaN => false
  | JBool b => b
  | JNum q => negb (Qeq_bool q 0)
  | JStr s => negb (String.eqb s "")
  | JArr _ | JObj _ => true
  end.

(** [a || b] *)
Definition or_else (a b : JsVal) : JsVal := if truthy a then a else b.

(** Lookup of an own property in the property list of an object. *)
Fixpoint assoc (k : string) (fields : list (string * JsVal)) : option JsVal :=
  match fields with
  | [] => None
  | (k', v) :: rest => if String.eqb k k' then Some v else assoc k rest
  end.

(** [v.k] for the property names the services read ([response], [done],
    [message], [content], [id], [model], ...), none of which is inherited from
    a prototype.  [None] is the [TypeError] of reading a property of [null] or
    [undefined]; a missing property reads as [undefined]. *)
Definition get (v : JsVal) (k : string) : option JsVal :=
  match v with
  | JUndefined | JNull => None
  | JObj fields => Some (default JUndefined (assoc k fields))
  | _ => Some JUndefined
  end.

(** [v?.k] *)
Definition get_opt (v : JsVal) (k : string) : JsVal :=
  default JUndefined (get v k).

(** [o.k = x] on a property list: an existing property keeps its place. *)
Fixpoint set (k : string) (x : JsVal) (fields : list (string * JsVal))
  : list (string * JsVal) :=
  match fields with
  | [] => [(k, x)]
  | (k', v) :: rest =>
      if String.eqb k k' then (k', x) :: rest else (k', v) :: set k x rest
  end.

(** The own enumerable properties that [{...v}] copies. *)
Definition spread (v : JsVal) : list (string * JsVal) :=
  match v with
  | JObj fields => fields
  | JArr items => imap (fun i x => (pretty i, x)) items
  | JStr s =>
      imap (fun i c => (pretty i, JStr (String c EmptyString))) (list_ascii_of_string s)
  | _ => []
  end.

(** [{...a, ...b}]: the properties of [b] are assigned in order onto [a]. *)
Definition assign (a b : list (string * JsVal)) : list (string * JsVal) :=
  fold_left (fun acc kv => set kv.1 kv.2 acc) b a.

Lemma assoc_set_eq k x fields : assoc k (set k x fields) = Some x.
Proof.
  induction fields as [|[k' v] rest IH]; simpl.
  - by rewrite String.eqb_refl.
  - destruct (String.eqb k k') eqn:E; simpl; rewrite E; [done | exact IH].
Qed.

Lemma assoc_set_ne k k' x fields :
  k ≠ k' → assoc k' (set k x fields) = assoc k' fields.
Proof.
  intros Hne. induction fields as [|[k0 v] rest IH]; simpl.
  - destruct (String.eqb k' k) eqn:E; [|done].
    apply String.eqb_eq in E. congruence.
  - destruct (String.eqb k k0) eqn:E; simpl.
    + apply String.eqb_eq in E. subst k0.
      destruct (String.eqb k' k) eqn:E'; [|done].
      apply String.eqb_eq in E'. congruence.
    + by rewrite IH.
Qed.

End Js.

(** ** The worker adapter: [client/src/services/OllamaService.ts] *)

Module OllamaService.
Import Js.

(** The fields of [InferenceRequest] that the adapter reads. *)
Record InferenceRequest := {
  id : string;
  model : string;
  prompt : option string;
  input : option JsVal;
  options : option JsVal;
  metadata : option JsVal;
}.

(** [request.metadata?.k] *)
Definition meta (request : InferenceRequest) (k : string) : JsVal :=
  match metadata request with
  | Some m => get_opt m k
  | None => JUndefined
  end.

(** [if (request.metadata?.k) { payload.k = request.metadata.k; }] *)
Definition pass_truthy (request : InferenceRequest)
    (payload : list (string * JsVal)) (k : string) : list (string * JsVal) :=
  if truthy (meta request k) then set k (meta request k) payload else payload.

(** [if (request.metadata?.k !== undefined) { payload.k = ...; }] *)
Definition pass_defined (request : InferenceRequest)
    (payload : list (string * JsVal)) (k : string) : list (string * JsVal) :=
  match meta request k with
  | JUndefined => payload
  | v => set k v payload
  end.

Definition options_or_empty (request : InferenceRequest) : JsVal :=
  or_else (default JUndefined (options request)) (JObj []).

(** The body posted to [/api/generate]. *)
Definition generate_payload (request : InferenceRequest) (stream : bool) : JsVal :=
  JObj (fold_left (pass_truthy request)
          ["think"; "suffix"; "images"; "format"; "system"; "template"; "raw";
           "keep_alive"; "context"]
          [("model", JStr (model request));
           ("prompt", from_option JStr JUndefined (prompt request));
           ("stream", JBool stream);
           ("options", options_or_empty request)]).

(** The body posted to [/api/chat]; the caller has checked [messages]. *)
Definition chat_payload (request : InferenceRequest) (stream : bool) : JsVal :=
  JObj (fold_left (pass_truthy request)
          ["tools"; "think"; "format"; "keep_alive"]
          [("model", JStr (model request));
           ("messages", meta request "messages");
           ("stream", JBool stream);
           ("options", options_or_empty request)]).

(** The body posted to [/api/embed]. *)
Definition embed_payload (request : InferenceRequest) : JsVal :=
  JObj (fold_left (pass_defined request)
          ["truncate"; "keep_alive"]
          [("model", JStr (model request));
           ("input", default JUndefined (input request));
           ("options", options_or_empty request)]).

(** How a streamed HTTP body ends: the worker closes it, or the transport
    fails and the [for await] loop throws. *)
Inductive StreamEnd :=
| Closed
| Failed (message : string).

Record HttpStream := {
  chunks : list string;
  ending : StreamEnd;
}.

(** How a run of an async generator ends. *)
Inductive Completion :=
| Returned
| Threw (message : string).

(** [buffer.split("\n")]: never empty, the last item is the text after the
    last newline. *)
Fixpoint split_nl (s : string) : list string :=
  match s with
  | EmptyString => [""]
  | String c s' =>
      if Ascii.eqb c "010"
      then "" :: split_nl s'
      else match split_nl s' with
           | [] => [String c ""]
           | l :: ls => String c l :: ls
           end
  end.

(** [line.trim()] is truthy: some character is not white space. *)
Fixpoint nonblank (s : string) : bool :=
  match s with
  | EmptyString => false
  | String c s' => negb (Ascii.is_space c) || nonblank s'
  end.

Section Adapter.

(** [this.client.post(url, payload)]: the worker's JSON body, or the message of
    the error the call rejects with. *)
Variable post : string → JsVal → string + JsVal.

(** [this.client.post(url, payload, { responseType: "stream" })] *)
Variable post_stream : string → JsVal → string + HttpStream.

(** [JSON.parse]; [None] is a thrown [SyntaxError]. *)
Variable JSON_parse : string → option JsVal.

(** *** [generateResponse] *)
Definition generateResponse (request : InferenceRequest) : string + JsVal :=
  match post "/api/generate" (generate_payload request false) with
  | inl message => inl ("Inference failed: " +:+ message)
  | inr data =>
      (* { ...response.data, id: request.id } *)
      inr (JObj (set "id" (JStr (id request)) (spread data)))
  end.

(** *** [generateChatResponse] *)
Definition generateChatResponse (request : InferenceRequest) : string + JsVal :=
  if truthy (meta request "messages") then
    match post "/api/chat" (chat_payload request false) with
    | inl message => inl ("Chat inference failed: " +:+ message)
    | inr data => inr (JObj (set "id" (JStr (id request)) (spread data)))
    end
  else inl "Chat inference failed: Chat request must include messages in metadata".

(** *** [generateEmbedding] *)
Definition generateEmbedding (request : InferenceRequest) : string + JsVal :=
  if truthy (default JUndefined (input request)) then
    match post "/api/embed" (embed_payload request) with
    | inl message => inl ("Embedding failed: " +:+ message)
    | inr embeddingData =>
        match get embeddingData "model" with
        | None =>
            (* embeddingData.model on a missing body is a TypeError, which the
               catch rethrows with its message *)
            inl ("Embedding failed: Cannot read properties of "
                 +:+ (match embeddingData with JNull => "null" | _ => "undefined" end)
                 +:+ " (reading 'model')")
        | Some _ =>
            inr (JObj [("id", JStr (id request));
                       ("model", get_opt embeddingData "model");
                       ("embeddings", get_opt embeddingData "embeddings");
                       ("total_duration", get_opt embeddingData "total_duration");
                       ("load_duration", get_opt embeddingData "load_duration");
                       ("prompt_eval_count", get_opt embeddingData "prompt_eval_count")])
        end
    end
  else inl "Embedding failed: Input is required for embedding requests".

(** *** [generateStreamResponse] *)

(** What the body of the inner [try] yields for one line: nothing when the
    line is blank, when [JSON.parse] throws, or when the parsed value is
    [null] (the property read throws); the inner [catch] logs and goes on. *)
Definition record_of_line (request : InferenceRequest) (line : string) : option JsVal :=
  if nonblank line then
    data ← JSON_parse line;
    response ← get data "response";
    done ← get data "done";
    Some (JObj [("id", JStr (id request));
                ("response", or_else response (JStr ""));
                ("done", or_else done (JBool false))])
  else None.

(** [if (data.done) return;] reads the flag that was just yielded. *)
Definition is_done (record : JsVal) : bool := truthy (get_opt record "done").

(** [for (const line of lines)]: the records yielded, and whether the
    generator returned from inside the loop. *)
Fixpoint yield_lines (request : InferenceRequest) (lines : list string)
  : list JsVal * bool :=
  match lines with
  | [] => ([], false)
  | line :: rest =>
      match record_of_line request line with
      | Some record =>
          if is_done record then ([record], true)
          else let '(ys, returned) := yield_lines request rest in
               (record :: ys, returned)
      | None => yield_lines request rest
      end
  end.

(** [for await (const chunk of response.data)] with the buffer it carries. *)
Fixpoint stream_loop (request : InferenceRequest) (buffer : string)
    (chunks : list string) (ending : StreamEnd) : list JsVal * Completion :=
  match chunks with
  | [] =>
      match ending with
      | Closed => ([], Returned)
      | Failed message => ([], Threw ("Streaming inference failed: " +:+ message))
      end
  | chunk :: rest =>
      let lines := split_nl (buffer +:+ chunk) in
      let buffer' := default "" (last lines) in     (* lines.pop() || "" *)
      match yield_lines request (removelast lines) with
      | (ys, true) => (ys, Returned)
      | (ys, false) =>
          let '(ys', completion) := stream_loop request buffer' rest ending in
          ((ys ++ ys')%list, completion)
      end
  end.

Definition generateStreamResponse (request : InferenceRequest)
  : list JsVal * Completion :=
  match post_stream "/api/generate" (generate_payload request true) with
  | inl message => ([], Threw ("Streaming inference failed: " +:+ message))
  | inr stream => stream_loop request "" (chunks stream) (ending stream)
  end.

(** *** [generateChatStreamResponse] *)

(** [{ id, response: data.message?.content || "", done: data.done || false,
       ...data }] *)
Definition chat_record_of_text (request : InferenceRequest) (text : string) : option JsVal :=
  if nonblank text then
    data ← JSON_parse text;
    message ← get data "message";
    done ← get data "done";
    Some (JObj (assign [("id", JStr (id request));
                        ("response", or_else (get_opt message "content") (JStr ""));
                        ("done", or_else done (JBool false))]
                       (spread data)))
  else None.

Fixpoint chat_stream_loop (request : InferenceRequest) (buffer : string)
    (chunks : list string) (ending : StreamEnd) : list JsVal * Completion :=
  match chunks with
  | [] =>
      match ending with
      | Closed =>
          (* Process any remaining buffer *)
          (option_list (chat_record_of_text request buffer), Returned)
      | Failed message => ([], Threw ("Chat stream inference failed: " +:+ message))
      end
  | chunk :: rest =>
      let lines := split_nl (buffer +:+ chunk) in
      let buffer' := default "" (last lines) in
      let ys := omap (chat_record_of_text request) (removelast lines) in
      let '(ys', completion) := chat_stream_loop request buffer' rest ending in
      ((ys ++ ys')%list, completion)
  end.

Definition generateChatStreamResponse (request : InferenceRequest)
  : list JsVal * Completion :=
  if truthy (meta request "messages") then
    match post_stream "/api/chat" (chat_payload request true) with
    | inl message => ([], Threw ("Chat stream inference failed: " +:+ message))
    | inr stream => chat_stream_loop request "" (chunks stream) (ending stream)
    end
  else ([], Threw "Chat stream inference failed: Chat request must include messages in metadata").

(** *** The records a stream carries *)

(** The whole text of a streamed body. *)
Definition text_of (chunks : list string) : string :=
  foldr String.append "" chunks.

(** The newline-terminated lines of a text. *)
Definition complete_lines (text : string) : list string :=
  removelast (split_nl text).

(** The text after the last newline. *)
Definition remainder (text : string) : string :=
  default "" (last (split_nl text)).

(** A list of records cut after its first record with a truthy [done]. *)
Fixpoint until_done (records : list JsVal) : list JsVal * bool :=
  match records with
  | [] => ([], false)
  | record :: rest =>
      if is_done record then ([record], true)
      else let '(ys, found) := until_done rest in (record :: ys, found)
  end.





End Adapter.

(** *** Facts about [split] *)

Lemma append_cons (c : ascii) (s t : string) :
  String c s +:+ t = String c (s +:+ t).
Proof. reflexivity. Qed.

Lemma append_assoc (a b c : string) : (a +:+ b) +:+ c = a +:+ (b +:+ c).
Proof.
  induction a as [|x a IH]; [done|].
  by rewrite !append_cons, IH.
Qed.

Lemma split_nl_nonempty (s : string) : split_nl s ≠ [].
Proof.
  destruct s as [|c s]; simpl; [done|].
  destruct (Ascii.eqb c "010"); [done|].
  by destruct (split_nl s).
Qed.

(** Splitting a text that grows: the earlier lines stay, only the last item
    is extended. *)
Lemma split_nl_app (a b : string) :
  split_nl (a +:+ b) = complete_lines a ++ split_nl (remainder a +:+ b).
Proof.
  unfold complete_lines, remainder.
  induction a as [|c a IH].
  - done.
  - rewrite append_cons. simpl.
    pose proof (split_nl_nonempty a) as Hne.
    destruct (Ascii.eqb c "010") eqn:Hc.
    + rewrite IH. destruct (split_nl a) as [|l ls]; [done|]. done.
    + rewrite IH. destruct (split_nl a) as [|l ls]; [done|].
      destruct ls as [|l' ls'].
      * change (removelast [l]) with (@nil string).
        change (removelast [String c l]) with (@nil string).
        change (default "" (last [l])) with l.
        change (default "" (last [String c l])) with (String c l).
        rewrite !app_nil_l, append_cons. simpl. by rewrite Hc.
      * done.
Qed.

Lemma complete_lines_app (a b : string) :
  complete_lines (a +:+ b) = complete_lines a ++ complete_lines (remainder a +:+ b).
Proof.
  unfold complete_lines at 1. rewrite split_nl_app.
  apply removelast_app, split_nl_nonempty.
Qed.

Lemma remainder_app (a b : string) :
  remainder (a +:+ b) = remainder (remainder a +:+ b).
Proof.
  unfold remainder at 1. rewrite split_nl_app, last_app.
  unfold remainder at 2.
  pose proof (split_nl_nonempty (remainder a +:+ b)) as Hne.
  destruct (last (split_nl (remainder a +:+ b))) eqn:E; [done|].
  by apply last_None in E.
Qed.


(** The text after the last newline holds no newline. *)
Lemma split_nl_remainder (s : string) :
  split_nl (remainder s) = [remainder s].
Proof.
  unfold remainder.
  induction s as [|c s IH]; [done|].
  pose proof (split_nl_nonempty s) as Hne. simpl.
  destruct (Ascii.eqb c "010") eqn:Hc.
  - destruct (split_nl s) as [|l ls]; [done|].
    by rewrite last_cons_cons.
  - destruct (split_nl s) as [|l ls]; [done|].
    destruct ls as [|l' ls'].
    + change (default "" (last [String c l])) with (String c l).
      change (default "" (last [l])) with l in IH.
      simpl. by rewrite Hc, IH.
    + by rewrite !last_cons_cons in *.
Qed.

(** *** Facts about the generators *)

Lemma until_done_app (a b : list JsVal) :
  until_done (a ++ b) =
    if (until_done a).2 then until_done a
    else ((until_done a).1 ++ (until_done b).1, (until_done b).2).
Proof.
  induction a as [|r a IH]; simpl.
  - by destruct (until_done b).
  - destruct (is_done r); [done|].
    rewrite IH. destruct (until_done a) as [ys [|]]; simpl; [done|].
    by destruct (until_done b).
Qed.



Section AdapterFacts.

Variable post : string → JsVal → string + JsVal.
Variable post_stream : string → JsVal → string + HttpStream.
Variable JSON_parse : string → option JsVal.
Variable request : InferenceRequest.

#[local] Abbreviation record := (record_of_line JSON_parse request).
#[local] Abbreviation chat_record := (chat_record_of_text JSON_parse request).

Lemma yield_lines_until_done (lines : list string) :
  yield_lines JSON_parse request lines = until_done (omap record lines).
Proof.
  induction lines as [|line rest IH]; simpl; [done|].
  destruct (record line) as [r|]; simpl; [|done].
  by rewrite IH.
Qed.

(** The completion of a run that did not return from inside the loop. *)
Definition at_end (prefix : string) (ending : StreamEnd) : Completion :=
  match ending with
  | Closed => Returned
  | Failed message => Threw (prefix +:+ message)
  end.

(** The loop over the chunks sees exactly the newline-terminated lines of the
    whole text, whatever the chunk boundaries are. *)
Lemma stream_loop_lines (chunks : list string) (ending : StreamEnd) (buffer : string) :
  split_nl buffer = [buffer] →
  stream_loop JSON_parse request buffer chunks ending =
    let run := until_done (omap record (complete_lines (buffer +:+ text_of chunks))) in
    (run.1, if run.2 then Returned else at_end "Streaming inference failed: " ending).
Proof.
  revert buffer. induction chunks as [|chunk rest IH]; intros buffer Hbuf.
  - simpl. unfold complete_lines.
    replace (buffer +:+ "") with buffer
      by (clear; induction buffer as [|c b IHb]; [done | by rewrite append_cons, <- IHb]).
    rewrite Hbuf. simpl. by destruct ending.
  - simpl. rewrite yield_lines_until_done.
    fold (complete_lines (buffer +:+ chunk)) (remainder (buffer +:+ chunk)).
    rewrite <- (append_assoc buffer chunk (text_of rest)).
    rewrite (complete_lines_app (buffer +:+ chunk) (text_of rest)).
    rewrite omap_app, until_done_app.
    destruct (until_done (omap record (complete_lines (buffer +:+ chunk))))
      as [ys [|]] eqn:E; simpl; [done|].
    rewrite IH by apply split_nl_remainder. done.
Qed.

Lemma chat_stream_loop_lines (chunks : list string) (ending : StreamEnd) (buffer : string) :
  split_nl buffer = [buffer] →
  chat_stream_loop JSON_parse request buffer chunks ending =
    let text := buffer +:+ text_of chunks in
    match ending with
    | Closed =>
        (omap chat_record (complete_lines text)
           ++ option_list (chat_record (remainder text)), Returned)
    | Failed message =>
        (omap chat_record (complete_lines text),
         Threw ("Chat stream inference failed: " +:+ message))
    end.
Proof.
  revert buffer. induction chunks as [|chunk rest IH]; intros buffer Hbuf.
  - simpl. unfold complete_lines, remainder.
    replace (buffer +:+ "") with buffer
      by (clear; induction buffer as [|c b IHb]; [done | by rewrite append_cons, <- IHb]).
    rewrite Hbuf. simpl. by destruct ending.
  - simpl.
    fold (complete_lines (buffer +:+ chunk)) (remainder (buffer +:+ chunk)).
    rewrite IH by apply split_nl_remainder.
    rewrite <- (append_assoc buffer chunk (text_of rest)).
    rewrite (complete_lines_app (buffer +:+ chunk) (text_of rest)).
    rewrite (remainder_app (buffer +:+ chunk) (text_of rest)), omap_app.
    destruct ending; simpl; [by rewrite (assoc_L (++)) | done].
Qed.

Lemma generateStreamResponse_lines (stream : HttpStream) :
  post_stream "/api/generate" (generate_payload request true) = inr stream →
  generateStreamResponse post_stream JSON_parse request =
    let run := until_done (omap record (complete_lines (text_of (chunks stream)))) in
    (run.1, if run.2 then Returned
            else at_end "Streaming inference failed: " (ending stream)).
Proof.
  intros Hpost. unfold generateStreamResponse. rewrite Hpost.
  by rewrite stream_loop_lines.
Qed.


(** C8, as the code has it.  The generate parser yields, for any chunking of
    the body, the records of the newline-terminated lines up to the first
    [done] record: text that has no newline yet is held back, and a line that
    is blank or does not parse yields nothing and ends nothing.  When the body
    closes, the text after the last newline is dropped and the generator
    returns normally, also when that text is a truncated record; only a
    failure of the transport makes it throw.  The chat parser does the same
    without stopping at [done], and when the body closes it also tries the
    text after the last newline, yielding it if it is a record and dropping
    it otherwise. *)
Theorem stream_parser_buffers_and_skips (stream : HttpStream) :
  (post_stream "/api/generate" (generate_payload request true) = inr stream →
   let run := until_done (omap record (complete_lines (text_of (chunks stream)))) in
   generateStreamResponse post_stream JSON_parse request =
     (run.1,
      if run.2 then Returned
      else match ending stream with
           | Closed => Returned
           | Failed message => Threw ("Streaming inference failed: " +:+ message)
           end))
  ∧
  (truthy (meta request "messages") = true →
   post_stream "/api/chat" (chat_payload request true) = inr stream →
   let text := text_of (chunks stream) in
   generateChatStreamResponse post_stream JSON_parse request =
     match ending stream with
     | Closed =>
         (omap chat_record (complete_lines text)
            ++ option_list (chat_record (remainder text)), Returned)
     | Failed message =>
         (omap chat_record (complete_lines text),
          Threw ("Chat stream inference failed: " +:+ message))
     end).
Proof.
  split.
  - intros Hpost. by rewrite (generateStreamResponse_lines stream Hpost).
  - intros Hmessages Hpost. unfold generateChatStreamResponse.
    rewrite Hmessages, Hpost. by rewrite chat_stream_loop_lines.
Qed.

(** C10.  Whenever [generateResponse] or [generateEmbedding] returns a
    response object, its [id] is the id of the request, whatever [id] the
    worker's own body carries; and each of them does return an object when
    the worker answers (for the embedding: an input is given and the body is
    not null).  Every other property of the body of [generateResponse] is
    passed on as it is. *)
Theorem response_id_is_request_id :
  (∀ data : JsVal,
     post "/api/generate" (generate_payload request false) = inr data →
     ∃ result, generateResponse post request = inr result
               ∧ get result "id" = Some (JStr (id request))
               ∧ ∀ k, k ≠ "id" → get result k = get (JObj (spread data)) k)
  ∧ (∀ result : JsVal,
       generateResponse post request = inr result →
       get result "id" = Some (JStr (id request)))
  ∧ (∀ data : JsVal,
       truthy (default JUndefined (input request)) = true →
       post "/api/embed" (embed_payload request) = inr data →
       is_Some (get data "model") →
       ∃ result, generateEmbedding post request = inr result
                 ∧ get result "id" = Some (JStr (id request)))
  ∧ (∀ result : JsVal,
       generateEmbedding post request = inr result →
       get result "id" = Some (JStr (id request))).
Proof.
  assert (Hspread : ∀ data,
    get (JObj (set "id" (JStr (id request)) (spread data))) "id"
      = Some (JStr (id request))).
  { intros data. simpl. by rewrite assoc_set_eq. }
  repeat split.
  - intros data Hpost. unfold generateResponse. rewrite Hpost.
    eexists. split; [reflexivity|]. split; [apply Hspread|].
    intros k Hk. simpl. by rewrite assoc_set_ne.
  - unfold generateResponse.
    destruct (post _ _) as [message|data]; [done|].
    intros result [= <-]. apply Hspread.
  - intros data Hinput Hpost [v Hv]. unfold generateEmbedding.
    rewrite Hinput, Hpost, Hv. eauto.
  - unfold generateEmbedding.
    destruct (truthy _); [|done].
    destruct (post _ _) as [message|data]; [done|].
    destruct (get data "model"); [|done].
    by intros result [= <-].
Qed.

End AdapterFacts.

(** *** A sample worker *)

(** The double quote and the newline, as one-character strings. *)
Definition dq : string := String "034" "".
Definition nl : string := String "010" "".

(** The text [{"response":"<response>","done":<done>}]. *)
Definition record_text (response : string) (done : bool) : string :=
  "{" +:+ dq +:+ "response" +:+ dq +:+ ":" +:+ dq +:+ response +:+ dq +:+ ","
  +:+ dq +:+ "done" +:+ dq +:+ ":" +:+ (if done then "true" else "false") +:+ "}".

(** The text [{"message":{"content":"<content>"},"done":<done>}]. *)
Definition chat_text (content : string) (done : bool) : string :=
  "{" +:+ dq +:+ "message" +:+ dq +:+ ":{" +:+ dq +:+ "content" +:+ dq +:+ ":"
  +:+ dq +:+ content +:+ dq +:+ "}," +:+ dq +:+ "done" +:+ dq +:+ ":"
  +:+ (if done then "true" else "false") +:+ "}".

Definition record_value (response : string) (done : bool) : JsVal :=
  JObj [("response", JStr response); ("done", JBool done)].

Definition chat_value (content : string) (done : bool) : JsVal :=
  JObj [("message", JObj [("content", JStr content)]); ("done", JBool done)].

(** [JSON.parse] on the texts of the samples: the records with the responses
    [He], [llo] and the empty one, and [null]; any other text of the samples
    (a truncated record, [oops]) is not JSON. *)
Definition sample_parse (text : string) : option JsVal :=
  let responses := ["He"; "llo"; ""] in
  let table :=
    (r ← responses; b ← [false; true]; [(record_text r b, record_value r b)]) ++
    (r ← responses; b ← [false; true]; [(chat_text r b, chat_value r b)]) ++
    [("null", JNull)] in
  assoc text table.

Definition sample_request : InferenceRequest :=
  {| id := "job-1"; model := "m1"; prompt := Some "Hi"; input := Some (JStr "Hi");
     options := None;
     metadata := Some (JObj [("messages", JArr [JObj [("role", JStr "user")]])]) |}.

(** A worker that answers every streaming post with the given body. *)
Definition streams (body : HttpStream) : string → JsVal → string + HttpStream :=
  λ _ _, inr body.

(** Three records and a fourth after [done]; the first record arrives in two
    chunks, a line is not JSON, and one line is blank. *)
Definition sample_body : HttpStream :=
  {| chunks := [ "{";
                 String.substring 1 100 (record_text "He" false) +:+ nl +:+ "oops" +:+ nl;
                 nl +:+ record_text "llo" false;
                 nl +:+ record_text "" true +:+ nl +:+ record_text "He" false +:+ nl ];
     ending := Closed |}.

(** The same lines for the chat parser, the last one without its newline. *)
Definition sample_chat_body : HttpStream :=
  {| chunks := [ chat_text "He" false +:+ nl +:+ "oops" +:+ nl;
                 chat_text "" true +:+ nl +:+ chat_text "llo" false ];
     ending := Closed |}.

(** A body that closes in the middle of its second record. *)
Definition truncated_body : HttpStream :=
  {| chunks := [ record_text "He" false +:+ nl;
                 String.substring 0 14 (record_text "llo" false) ];
     ending := Closed |}.

(** A worker whose JSON body carries an [id] of its own. *)
Definition sample_post (url : string) (payload : JsVal) : string + JsVal :=
  inr (JObj [("id", JStr "worker-side-id"); ("model", JStr "m1");
             ("response", JStr "Hello"); ("embeddings", JArr [])]).

Definition yielded (response : string) (done : bool) : JsVal :=
  JObj [("id", JStr "job-1"); ("response", JStr response); ("done", JBool done)].

Example split_nl_sample :
  split_nl ("ab" +:+ nl +:+ nl +:+ "c") = ["ab"; ""; "c"]
  ∧ split_nl ("ab" +:+ nl) = ["ab"; ""] ∧ split_nl "" = [""].
Proof. by vm_compute. Qed.

Example generateStreamResponse_sample :
  generateStreamResponse (streams sample_body) sample_parse sample_request
    = ([yielded "He" false; yielded "llo" false; yielded "" true], Returned).
Proof. by vm_compute. Qed.

Example truncated_text :
  remainder (text_of (chunks truncated_body))
    = "{" +:+ dq +:+ "response" +:+ dq +:+ ":" +:+ dq +:+ "l"
  ∧ sample_parse (remainder (text_of (chunks truncated_body))) = None.
Proof. by vm_compute. Qed.

(** C8, where the claim fails: the body closes in the middle of a record, the
    generator yields the one complete record and returns; nothing is thrown. *)
Lemma stream_closed_mid_record_returns :
  generateStreamResponse (streams truncated_body) sample_parse sample_request
    = ([yielded "He" false], Returned)
  ∧ ending truncated_body = Closed
  ∧ nonblank (remainder (text_of (chunks truncated_body))) = true.
Proof. by vm_compute. Qed.

Lemma stream_parser_buffers_and_skips_witness :
  generateStreamResponse (streams sample_body) sample_parse sample_request
    = ([yielded "He" false; yielded "llo" false; yielded "" true], Returned)
  ∧ (generateChatStreamResponse (streams sample_chat_body) sample_parse sample_request).2
    = Returned
  ∧ length (generateChatStreamResponse (streams sample_chat_body) sample_parse
              sample_request).1 = 3.
Proof.
  destruct (stream_parser_buffers_and_skips (streams sample_body) sample_parse
              sample_request sample_body) as [Hgenerate _].
  destruct (stream_parser_buffers_and_skips (streams sample_chat_body) sample_parse
              sample_request sample_chat_body) as [_ Hchat].
  rewrite Hgenerate, Hchat by reflexivity.
  by vm_compute.
Defined.

Lemma response_id_is_request_id_witness :
  (∃ result, generateResponse sample_post sample_request = inr result
             ∧ get result "id" = Some (JStr "job-1"))
  ∧ (∃ result, generateEmbedding sample_post sample_request = inr result
               ∧ get result "id" = Some (JStr "job-1")).
Proof.
  destruct (response_id_is_request_id sample_post sample_request)
    as (Hgenerate & _ & Hembed & _).
  split.
  - destruct (Hgenerate _ eq_refl) as (result & Hresult & Hid & _). eauto.
  - eapply Hembed; [done..|]. by eexists.
Defined.

(** ** Further properties of the adapter *)

(** *** The bodies posted to the worker *)

Lemma assoc_pass_truthy (request : InferenceRequest)
    (payload : list (string * JsVal)) (k0 k : string) :
  assoc k (pass_truthy request payload k0)
    = if String.eqb k0 k && truthy (meta request k0)
      then Some (meta request k0) else assoc k payload.
Proof.
  unfold pass_truthy. destruct (truthy (meta request k0)).
  - rewrite andb_true_r.
    destruct (String.eqb_spec k0 k) as [->|Hne];
      [apply assoc_set_eq | by apply assoc_set_ne].
  - by rewrite andb_false_r.
Qed.

(** After the run of [if (request.metadata?.k) payload.k = ...] over the keys
    [ks]: a key of [ks] is set exactly when its metadata is truthy. *)
Lemma assoc_fold_pass_truthy (request : InferenceRequest) (ks : list string)
    (payload : list (string * JsVal)) (k : string) :
  assoc k (fold_left (pass_truthy request) ks payload)
    = if bool_decide (k ∈ ks) && truthy (meta request k)
      then Some (meta request k) else assoc k payload.
Proof.
  revert payload. induction ks as [|k0 ks IH]; intros payload; [done|].
  simpl. rewrite IH, assoc_pass_truthy.
  destruct (String.eqb_spec k0 k) as [->|Hne]; simpl.
  - rewrite (bool_decide_true (k ∈ k :: ks)) by left.
    destruct (truthy (meta request k)); [|by rewrite andb_false_r].
    by destruct (bool_decide (k ∈ ks)).
  - assert (bool_decide (k ∈ k0 :: ks) = bool_decide (k ∈ ks)) as ->; [|done].
    apply bool_decide_ext. rewrite elem_of_cons. naive_solver.
Qed.

Lemma assoc_pass_defined (request : InferenceRequest)
    (payload : list (string * JsVal)) (k0 k : string) :
  assoc k (pass_defined request payload k0)
    = if String.eqb k0 k
      then match meta request k0 with
           | JUndefined => assoc k payload
           | v => Some v
           end
      else assoc k payload.
Proof.
  unfold pass_defined.
  destruct (String.eqb_spec k0 k) as [->|Hne].
  - destruct (meta request k); try apply assoc_set_eq. done.
  - destruct (meta request k0); try (by apply assoc_set_ne). done.
Qed.

Definition base_keys : list string := ["model"; "prompt"; "stream"; "options"].

(** The metadata fields [generateResponse] and [generateStreamResponse] pass
    on to the worker. *)
Definition generate_passthrough : list string :=
  ["think"; "suffix"; "images"; "format"; "system"; "template"; "raw";
   "keep_alive"; "context"].

Lemma options_or_empty_truthy (request : InferenceRequest) :
  truthy (options_or_empty request) = true.
Proof.
  unfold options_or_empty, or_else.
  by destruct (truthy (default JUndefined (options request))) eqn:E.
Qed.

Ltac split_elem_of H :=
  repeat (apply elem_of_cons in H as [->|H]); try (by apply elem_of_nil in H).

(** X1.  The body posted to [/api/generate] always has [model], [prompt],
    [stream] and [options], and [options] is never missing (an empty object
    stands in).  Each of the nine metadata fields is passed on exactly when
    it is truthy, with its value; the body holds nothing else, so no other
    metadata field reaches the worker. *)
Theorem generate_payload_fields (request : InferenceRequest) (stream : bool) :
  ∃ fields,
    generate_payload request stream = JObj fields
    ∧ assoc "model" fields = Some (JStr (model request))
    ∧ assoc "prompt" fields = Some (from_option JStr JUndefined (prompt request))
    ∧ assoc "stream" fields = Some (JBool stream)
    ∧ assoc "options" fields = Some (options_or_empty request)
    ∧ truthy (options_or_empty request) = true
    ∧ (∀ k, k ∈ generate_passthrough →
         assoc k fields
           = if truthy (meta request k) then Some (meta request k) else None)
    ∧ (∀ k, is_Some (assoc k fields) → k ∈ base_keys ++ generate_passthrough).
Proof.
  eexists. split; [reflexivity|].
  repeat split; try (by rewrite assoc_fold_pass_truthy).
  - apply options_or_empty_truthy.
  - intros k Hk. rewrite assoc_fold_pass_truthy.
    fold generate_passthrough. rewrite bool_decide_true by done.
    unfold generate_passthrough in Hk. split_elem_of Hk; by destruct (truthy _).
  - intros k. rewrite assoc_fold_pass_truthy. fold generate_passthrough.
    case_bool_decide as Hk; [intros _; apply elem_of_app; by right|].
    intros Hsome. apply elem_of_app. left. simpl in Hsome. unfold base_keys.
    repeat match type of Hsome with
           | context [String.eqb k ?s] =>
               destruct (String.eqb_spec k s) as [->|_];
               [by repeat first [apply list_elem_of_here | apply list_elem_of_further]|]
           end.
    by destruct Hsome.
Qed.

(** X2.  The body posted to [/api/embed] passes [truncate] and [keep_alive]
    on whenever they are defined, also when the value is falsy ([false],
    [0], [null]); the generate body drops a falsy field. *)
Theorem embed_payload_keeps_falsy (request : InferenceRequest) :
  ∃ fields,
    embed_payload request = JObj fields
    ∧ assoc "model" fields = Some (JStr (model request))
    ∧ assoc "input" fields = Some (default JUndefined (input request))
    ∧ assoc "options" fields = Some (options_or_empty request)
    ∧ (∀ k, k ∈ ["truncate"; "keep_alive"] →
         assoc k fields
           = match meta request k with JUndefined => None | v => Some v end)
    ∧ (∀ k, is_Some (assoc k fields) →
         k ∈ ["model"; "input"; "options"; "truncate"; "keep_alive"]).
Proof.
  eexists. split; [reflexivity|]. simpl.
  split; [by rewrite !assoc_pass_defined|].
  split; [by rewrite !assoc_pass_defined|].
  split; [by rewrite !assoc_pass_defined|].
  split.
  - intros k Hk. split_elem_of Hk; rewrite !assoc_pass_defined; simpl.
    + destruct (meta request "keep_alive"), (meta request "truncate"); done.
    + by destruct (meta request "keep_alive").
  - intros k. rewrite !assoc_pass_defined. cbn [assoc].
    repeat match goal with
           | |- context [String.eqb ?a ?b] =>
               destruct (String.eqb_spec a b) as [?|_];
               [subst; intros _;
                by repeat first [apply list_elem_of_here | apply list_elem_of_further]|]
           end.
    by intros [].
Qed.

Example falsy_metadata :
  let request :=
    {| id := "job-2"; model := "m1"; prompt := Some "Hi"; input := Some (JStr "Hi");
       options := None;
       metadata := Some (JObj [("raw", JBool false); ("truncate", JBool false)]) |} in
  get (generate_payload request false) "raw" = Some JUndefined
  ∧ get (embed_payload request) "truncate" = Some (JBool false).
Proof. by vm_compute. Qed.

(** *** Guards that come before the request to the worker *)

(** X3.  A chat request without [messages] (missing, or falsy) fails with the
    same message in both chat operations whatever the worker would answer,
    and the stream yields nothing; an embedding request without [input], or
    with the empty string, fails likewise.  With [messages], the chat
    response is the worker's body with [id] replaced by the id of the
    request. *)
Theorem guards_precede_the_worker
    (post : string → JsVal → string + JsVal)
    (post_stream : string → JsVal → string + HttpStream)
    (JSON_parse : string → option JsVal) (request : InferenceRequest) :
  (truthy (meta request "messages") = false →
     generateChatResponse post request
       = inl "Chat inference failed: Chat request must include messages in metadata"
     ∧ generateChatStreamResponse post_stream JSON_parse request
       = ([], Threw "Chat stream inference failed: Chat request must include messages in metadata"))
  ∧ (input request = None ∨ input request = Some (JStr "") →
       generateEmbedding post request
         = inl "Embedding failed: Input is required for embedding requests")
  ∧ (truthy (meta request "messages") = true →
     ∀ data, post "/api/chat" (chat_payload request false) = inr data →
       ∃ result, generateChatResponse post request = inr result
                 ∧ get result "id" = Some (JStr (id request))
                 ∧ ∀ k, k ≠ "id" → get result k = get (JObj (spread data)) k).
Proof.
  split; [|split].
  - intros Hmessages. split.
    + unfold generateChatResponse. by rewrite Hmessages.
    + unfold generateChatStreamResponse. by rewrite Hmessages.
  - intros Hinput. unfold generateEmbedding. by destruct Hinput as [-> | ->].
  - intros Hmessages data Hpost. unfold generateChatResponse.
    rewrite Hmessages, Hpost. eexists. split; [reflexivity|]. simpl.
    split; [by rewrite assoc_set_eq|].
    intros k Hk. by rewrite assoc_set_ne.
Qed.

Lemma guards_precede_the_worker_witness :
  generateChatResponse sample_post
    {| id := "job-3"; model := "m1"; prompt := None; input := Some (JStr "");
       options := None; metadata := Some (JObj [("messages", JNull)]) |}
    = inl "Chat inference failed: Chat request must include messages in metadata"
  ∧ generateEmbedding sample_post
      {| id := "job-3"; model := "m1"; prompt := None; input := Some (JStr "");
         options := None; metadata := Some (JObj [("messages", JNull)]) |}
    = inl "Embedding failed: Input is required for embedding requests"
  ∧ ∃ result, generateChatResponse sample_post sample_request = inr result
              ∧ get result "id" = Some (JStr "job-1").
Proof.
  set (request := {| id := "job-3"; model := "m1"; prompt := None;
                     input := Some (JStr ""); options := None;
                     metadata := Some (JObj [("messages", JNull)]) |}).
  destruct (guards_precede_the_worker sample_post (streams sample_body) sample_parse
              request) as (Hchat & Hembed & _).
  destruct (guards_precede_the_worker sample_post (streams sample_body) sample_parse
              sample_request) as (_ & _ & Hid).
  split; [by apply Hchat|]. split; [apply Hembed; by right|].
  destruct (Hid eq_refl _ eq_refl) as (result & Hresult & Hrid & _). eauto.
Defined.

(** *** More on the streams *)

Lemma until_done_found (records : list JsVal) :
  (until_done records).2 = true
  ↔ ∃ r, last (until_done records).1 = Some r ∧ is_done r = true.
Proof.
  induction records as [|r0 rs IH]; simpl.
  - split; [done | by intros (r & ? & _)].
  - destruct (is_done r0) eqn:Hd; simpl.
    + split; [eauto | done].
    + destruct (until_done rs) as [ys found]. simpl in *. rewrite IH.
      destruct ys as [|y ys]; simpl.
      * split; intros (r & Hr & Hdone); [done|]. simplify_eq. congruence.
      * done.
Qed.



(** X5.  A failure of the transport changes nothing in what is yielded: the
    records of the complete lines received are yielded first.  The failure
    is thrown, as [Streaming inference failed: <message>], unless a [done]
    record was yielded: after [done] the generator has returned and the
    failure goes unseen. *)
Theorem transport_failure_after_done_is_unseen (JSON_parse : string → option JsVal)
    (request : InferenceRequest) (chunks : list string) (message : string) :
  let closed := generateStreamResponse
                  (streams {| chunks := chunks; ending := Closed |}) JSON_parse request in
  let failed := generateStreamResponse
                  (streams {| chunks := chunks; ending := Failed message |})
                  JSON_parse request in
  closed.2 = Returned
  ∧ failed.1 = closed.1
  ∧ (failed.2 = Returned ↔ ∃ r, last failed.1 = Some r ∧ is_done r = true)
  ∧ (failed.2 = Returned ∨ failed.2 = Threw ("Streaming inference failed: " +:+ message)).
Proof.
  intros closed failed. subst closed failed.
  rewrite (generateStreamResponse_lines _ JSON_parse request
             {| chunks := chunks; ending := Closed |} eq_refl).
  rewrite (generateStreamResponse_lines _ JSON_parse request
             {| chunks := chunks; ending := Failed message |} eq_refl).
  simpl. rewrite <- until_done_found.
  destruct (until_done _) as [ys [|]]; simpl; naive_solver.
Qed.




(** *** The chunks of a chat stream *)

Lemma assoc_app (k : string) (l1 l2 : list (string * JsVal)) :
  assoc k (l1 ++ l2)
    = match assoc k l1 with Some v => Some v | None => assoc k l2 end.
Proof.
  induction l1 as [|[k' v] l1 IH]; simpl; [done|].
  by destruct (String.eqb k k').
Qed.

Lemma assoc_set (k k0 : string) (x : JsVal) (fields : list (string * JsVal)) :
  assoc k (set k0 x fields) = if String.eqb k k0 then Some x else assoc k fields.
Proof.
  destruct (String.eqb_spec k k0) as [->|Hne];
    [apply assoc_set_eq | apply assoc_set_ne; congruence].
Qed.

(** In [{...a, ...b}] the last value that [b] has under a key wins. *)
Lemma assoc_assign (a b : list (string * JsVal)) (k : string) :
  assoc k (assign a b)
    = match assoc k (reverse b) with Some v => Some v | None => assoc k a end.
Proof.
  unfold assign. revert a. induction b as [|[k0 x] b IH]; intros a; [done|].
  simpl. rewrite IH, reverse_cons, assoc_app, assoc_set. simpl.
  destruct (assoc k (reverse b)); [done|]. by destruct (String.eqb k k0).
Qed.

Lemma assoc_Some_elem_of (k : string) (v : JsVal) (fields : list (string * JsVal)) :
  NoDup fields.*1 → assoc k fields = Some v ↔ (k, v) ∈ fields.
Proof.
  induction fields as [|[k' v'] fields IH]; simpl.
  - intros _. by rewrite elem_of_nil.
  - rewrite NoDup_cons, elem_of_cons. intros [Hk' Hnodup].
    destruct (String.eqb_spec k k') as [->|Hne].
    + split; [intros [= ->]; by left|].
      intros [[= ->]|Hin]; [done|].
      destruct Hk'. apply list_elem_of_fmap. by exists (k', v).
    + rewrite IH by done. split; [by right|].
      intros [[= -> _]|Hin]; done.
Qed.

Lemma assoc_reverse (k : string) (fields : list (string * JsVal)) :
  NoDup fields.*1 → assoc k (reverse fields) = assoc k fields.
Proof.
  intros Hnodup. apply option_eq. intros v.
  rewrite !assoc_Some_elem_of, ?elem_of_reverse; [done..|].
  by rewrite fmap_reverse, reverse_Permutation.
Qed.

(** X7.  In a chunk of the chat stream the worker's record comes last in the
    object literal, so every property of the record is in the chunk with the
    worker's value: a record with an [id], a [response] or a [done] of its
    own replaces the ones the adapter computed.  Only a record without [id]
    leaves the id of the request in the chunk. *)
Theorem chat_chunk_worker_fields_win (JSON_parse : string → option JsVal)
    (request : InferenceRequest) (text : string) (fields : list (string * JsVal)) :
  nonblank text = true →
  JSON_parse text = Some (JObj fields) →
  NoDup fields.*1 →
  ∃ chunk,
    chat_record_of_text JSON_parse request text = Some chunk
    ∧ (∀ k v, (k, v) ∈ fields → get chunk k = Some v)
    ∧ (assoc "id" fields = None → get chunk "id" = Some (JStr (id request)))
    ∧ (assoc "response" fields = None →
         get chunk "response"
           = Some (or_else (get_opt (default JUndefined (assoc "message" fields))
                              "content") (JStr "")))
    ∧ (assoc "done" fields = None → get chunk "done" = Some (JBool false)).
Proof.
  intros Hblank Hparse Hnodup. unfold chat_record_of_text.
  rewrite Hblank, Hparse. simpl. eexists. split; [reflexivity|].
  simpl. setoid_rewrite assoc_assign. setoid_rewrite (assoc_reverse _ _ Hnodup).
  repeat split.
  - intros k v Hin. apply assoc_Some_elem_of in Hin; [|done]. by rewrite Hin.
  - by intros ->.
  - by intros ->.
  - intros Hdone. by rewrite Hdone.
Qed.

Lemma chat_chunk_worker_fields_win_witness :
  ∃ chunk,
    chat_record_of_text
      (λ _, Some (JObj [("id", JStr "chatcmpl-9"); ("message", JObj [("content", JStr "He")])]))
      sample_request (chat_text "He" false) = Some chunk
    ∧ get chunk "id" = Some (JStr "chatcmpl-9")
    ∧ get chunk "response" = Some (JStr "He")
    ∧ get chunk "done" = Some (JBool false).
Proof.
  destruct (chat_chunk_worker_fields_win
              (λ _, Some (JObj [("id", JStr "chatcmpl-9");
                                ("message", JObj [("content", JStr "He")])]))
              sample_request (chat_text "He" false)
              [("id", JStr "chatcmpl-9"); ("message", JObj [("content", JStr "He")])])
    as (chunk & Hchunk & Hfields & _ & Hresponse & Hdone).
  - reflexivity.
  - reflexivity.
  - simpl. repeat constructor; rewrite ?elem_of_cons, ?elem_of_nil; naive_solver.
  - exists chunk. split; [done|]. split; [apply Hfields; by left|].
    split; [by apply Hresponse | by apply Hdone].
Defined.

(** *** The connection: health, model list, pull and delete *)

(** [isConnected] and [lastHealthCheck] (in milliseconds). *)
Record Connection := {
  isConnected : bool;
  lastHealthCheck : Z;
}.

(** The error branch of the response interceptor: [this.isConnected = false]
    before the error is passed on. *)
Definition disconnected (c : Connection) : Connection :=
  {| isConnected := false; lastHealthCheck := lastHealthCheck c |}.

(** [value === text] for a string [text]. *)
Definition is_string (value : JsVal) (text : string) : bool :=
  match value with
  | JStr s => String.eqb s text
  | _ => false
  end.

(** [models.some((model) => model.name === modelName)]; [None] is the
    [TypeError] of reading [name] of a [null] item. *)
Fixpoint some_named (modelName : string) (models : list JsVal) : option bool :=
  match models with
  | [] => Some false
  | m :: rest =>
      match get m "name" with
      | None => None
      | Some value =>
          if is_string value modelName then Some true else some_named modelName rest
      end
  end.

Section Connection.

(** [this.client.get(url)]: the status and the body, or the message of the
    error the call rejects with (after the interceptor has run). *)
Variable http_get : string → string + (Z * JsVal).

(** [this.client.post(url, payload)] *)
Variable post : string → JsVal → string + JsVal.

(** [this.client.delete(url, { data })] *)
Variable http_delete : string → JsVal → string + JsVal.

(** [checkHealth]; [now] is [new Date()]. *)
Definition checkHealth (now : Z) (c : Connection) : Connection * bool :=
  match http_get "/api/version" with
  | inr (status, _) =>
      let ok := (status =? 200)%Z in
      ({| isConnected := ok; lastHealthCheck := now |}, ok)
  | inl _ =>
      (* the interceptor, then the catch: this.isConnected = false *)
      (disconnected c, false)
  end.

(** [getAvailableModels]: [response.data.models], or the error thrown. *)
Definition getAvailableModels (c : Connection) : Connection * (string + JsVal) :=
  match http_get "/api/tags" with
  | inl _ => (disconnected c, inl "Failed to retrieve available models from Ollama")
  | inr (_, data) =>
      match get data "models" ≫= λ models, get models "length" ≫= λ _, Some models with
      | Some models => (c, inr models)
      | None =>
          (* reading [models] or [length] threw inside the try *)
          (c, inl "Failed to retrieve available models from Ollama")
      end
  end.

(** [validateModel] *)
Definition validateModel (modelName : string) (c : Connection) : Connection * bool :=
  match getAvailableModels c with
  | (c', inr (JArr models)) => (c', default false (some_named modelName models))
  | (c', inr _) => (c', false)      (* models.some is not a function *)
  | (c', inl _) => (c', false)
  end.

(** [pullModel] *)
Definition pullModel (modelName : string) (c : Connection) : Connection * (string + unit) :=
  match post "/api/pull" (JObj [("name", JStr modelName); ("stream", JBool false)]) with
  | inl message =>
      (disconnected c, inl ("Failed to pull model " +:+ modelName +:+ ": " +:+ message))
  | inr _ => (c, inr ())
  end.

(** [deleteModel] *)
Definition deleteModel (modelName : string) (c : Connection) : Connection * (string + unit) :=
  match http_delete "/api/delete" (JObj [("name", JStr modelName)]) with
  | inl message =>
      (disconnected c, inl ("Failed to delete model " +:+ modelName +:+ ": " +:+ message))
  | inr _ => (c, inr ())
  end.

(** [getConnectionStatus] *)
Definition getConnectionStatus (c : Connection) : bool * Z :=
  (isConnected c, lastHealthCheck c).

End Connection.

Lemma some_named_true (modelName : string) (models : list JsVal) :
  some_named modelName models = Some true
  ↔ ∃ before m after,
      models = before ++ m :: after
      ∧ get m "name" = Some (JStr modelName)
      ∧ Forall (λ x, is_Some (get x "name")) before.
Proof.
  induction models as [|x models IH]; simpl.
  - split; [done|]. intros (before & m & after & Heq & _). by destruct before.
  - destruct (get x "name") as [value|] eqn:Hx.
    + destruct (is_string value modelName) eqn:Hvalue.
      * split; [intros _|done]. exists [], x, models.
        destruct value; try done. apply String.eqb_eq in Hvalue as ->. by rewrite Hx.
      * rewrite IH. split.
        -- intros (before & m & after & -> & Hm & Hbefore).
           exists (x :: before), m, after. split; [done|]. split; [done|].
           constructor; [by rewrite Hx | done].
        -- intros (before & m & after & Heq & Hm & Hbefore).
           destruct before as [|x' before]; simpl in Heq; injection Heq as -> ->.
           { rewrite Hm in Hx. injection Hx as <-. simpl in Hvalue.
             by rewrite String.eqb_refl in Hvalue. }
           apply Forall_cons in Hbefore as [_ Hbefore]. eauto 6.
    + split; [done|]. intros (before & m & after & Heq & Hm & Hbefore).
      destruct before as [|x' before]; simpl in Heq; injection Heq as -> ->.
      * by rewrite Hm in Hx.
      * apply Forall_cons in Hbefore as [[? Hx'] _]. by rewrite Hx in Hx'.
Qed.

Section ConnectionFacts.

Variable http_get : string → string + (Z * JsVal).
Variable post : string → JsVal → string + JsVal.
Variable http_delete : string → JsVal → string + JsVal.


(** X9.  [getAvailableModels] returns [response.data.models] exactly when the
    request got an answer whose body has a [models] that is neither null nor
    missing; in every other case it throws the one message [Failed to
    retrieve available models from Ollama].  A body without [models] does not
    mark the service as disconnected; a failed request does. *)
Theorem getAvailableModels_needs_models (c : Connection) :
  (∀ models,
     (getAvailableModels http_get c).2 = inr models
     ↔ ∃ status data, http_get "/api/tags" = inr (status, data)
                      ∧ get data "models" = Some models
                      ∧ models ≠ JUndefined ∧ models ≠ JNull)
  ∧ (∀ message, (getAvailableModels http_get c).2 = inl message →
       message = "Failed to retrieve available models from Ollama")
  ∧ (getAvailableModels http_get c).1
    = match http_get "/api/tags" with
      | inr _ => c
      | inl _ => disconnected c
      end.
Proof.
  unfold getAvailableModels.
  destruct (http_get "/api/tags") as [message|[status data]]; simpl.
  - split; [|split; [by intros ? [= <-] | done]].
    intros models. split; [done | by intros (? & ? & ? & _)].
  - assert (Hinv : ∀ models' : JsVal,
              (∃ status' data', @inr string _ (status, data) = inr (status', data')
                                ∧ get data' "models" = Some models'
                                ∧ models' ≠ JUndefined ∧ models' ≠ JNull)
              → get data "models" = Some models' ∧ is_Some (get models' "length")).
    { intros models' (status' & data' & Heq & Hget & Hundefined & Hnull).
      injection Heq as <- <-. split; [done|]. by destruct models'. }
    destruct (get data "models") as [models|] eqn:Hmodels; simpl.
    + destruct (get models "length") as [len|] eqn:Hlen; simpl.
      * split; [|done]. intros models'. split.
        -- intros [= <-]. exists status, data.
           repeat split; [done | by intros -> | by intros ->].
        -- intros H. apply Hinv in H as [[= <-] _]. done.
      * split; [|split; [by intros ? [= <-] | done]].
        intros models'. split; [done|].
        intros H. apply Hinv in H as [[= <-] [? Hsome]]. congruence.
    + split; [|split; [by intros ? [= <-] | done]].
      intros models'. split; [done|]. intros H. by apply Hinv in H as [? _].
Qed.

(** X10.  [validateModel] never throws; it answers true exactly when the list
    of models arrived as an array in which some item has the given name and
    no item before it is null.  A failed request, a body without a list, or
    a null item before any match all give false. *)
Theorem validateModel_true_iff (modelName : string) (c : Connection) :
  (validateModel http_get modelName c).2 = true
  ↔ ∃ status data before m after,
      http_get "/api/tags" = inr (status, data)
      ∧ get data "models" = Some (JArr (before ++ m :: after))
      ∧ get m "name" = Some (JStr modelName)
      ∧ Forall (λ x, is_Some (get x "name")) before.
Proof.
  unfold validateModel, getAvailableModels.
  destruct (http_get "/api/tags") as [message|[status data]]; simpl.
  { split; [done | by intros (? & ? & ? & ? & ? & ? & _)]. }
  split.
  - intros Htrue.
    destruct (get data "models") as [models|] eqn:Hmodels; simpl in *; [|done].
    destruct models as [| | | | | |items|]; try done. simpl in Htrue.
    destruct (some_named modelName items) as [[|]|] eqn:Hsome; try done.
    apply some_named_true in Hsome as (before & m & after & -> & Hm & Hbefore).
    by exists status, data, before, m, after.
  - intros (status' & data' & before & m & after & Heq & Hget & Hm & Hbefore).
    injection Heq as <- <-. rewrite Hget. simpl.
    assert (some_named modelName (before ++ m :: after) = Some true) as ->
      by (apply some_named_true; eauto 6).
    done.
Qed.

(** X11.  Listing, validating, pulling and deleting never set [isConnected]:
    each leaves the connection as it was when its request got an answer, and
    clears the flag, through the interceptor, when the request failed.  None
    of them touches the time of the last health check; only [checkHealth]
    can make the flag true again. *)
Theorem only_checkHealth_reconnects (modelName : string) (c : Connection) :
  let after_tags :=
    match http_get "/api/tags" with inr _ => c | inl _ => disconnected c end in
  (getAvailableModels http_get c).1 = after_tags
  ∧ (validateModel http_get modelName c).1 = after_tags
  ∧ (pullModel post modelName c).1
    = match (pullModel post modelName c).2 with
      | inr _ => c
      | inl _ => disconnected c
      end
  ∧ (deleteModel http_delete modelName c).1
    = match (deleteModel http_delete modelName c).2 with
      | inr _ => c
      | inl _ => disconnected c
      end
  ∧ Forall (λ c', (isConnected c' = true → isConnected c = true)
                  ∧ lastHealthCheck c' = lastHealthCheck c)
      [ (getAvailableModels http_get c).1; (validateModel http_get modelName c).1;
        (pullModel post modelName c).1; (deleteModel http_delete modelName c).1 ].
Proof.
  assert (Htags : (getAvailableModels http_get c).1
                  = match http_get "/api/tags" with
                    | inr _ => c | inl _ => disconnected c end).
  { unfold getAvailableModels.
    destruct (http_get "/api/tags") as [?|[? data]]; [done|].
    by destruct (get data "models" ≫= _). }
  assert (Hvalidate : (validateModel http_get modelName c).1
                      = (getAvailableModels http_get c).1).
  { unfold validateModel.
    destruct (getAvailableModels http_get c) as [c' [?|models]]; [done|].
    by destruct models. }
  assert (Hpull : (pullModel post modelName c).1
                  = match (pullModel post modelName c).2 with
                    | inr _ => c | inl _ => disconnected c end).
  { unfold pullModel. by destruct (post _ _). }
  assert (Hdelete : (deleteModel http_delete modelName c).1
                    = match (deleteModel http_delete modelName c).2 with
                      | inr _ => c | inl _ => disconnected c end).
  { unfold deleteModel. by destruct (http_delete _ _). }
  cbv zeta. split; [done|]. split; [by rewrite Hvalidate|].
  split; [done|]. split; [done|].
  rewrite Hvalidate, Htags, Hpull, Hdelete.
  repeat constructor;
    repeat match goal with |- context [match ?x with _ => _ end] => destruct x end;
    done.
Qed.

End ConnectionFacts.

(** A worker that lists [m1] after a null entry and answers 204 on
    [/api/version]. *)
Definition sample_get (url : string) : string + (Z * JsVal) :=
  if String.eqb url "/api/tags"
  then inr (200%Z, JObj [("models", JArr [JObj [("name", JStr "m2")];
                                          JObj [("name", JStr "m1")];
                                          JNull])])
  else if String.eqb url "/api/version" then inr (204%Z, JObj [])
  else inl "Request failed with status code 404".

Example connection_sample :
  let c := {| isConnected := true; lastHealthCheck := 5 |} in
  validateModel sample_get "m1" c = (c, true)
  ∧ validateModel sample_get "m3" c = (c, false)
  ∧ checkHealth sample_get 9 c = ({| isConnected := false; lastHealthCheck := 9 |}, false)
  ∧ pullModel (λ _ _, inl "timeout") "m3" c
    = (disconnected c, inl "Failed to pull model m3: timeout").
Proof. by vm_compute. Qed.

(** A line without newline, then a newline: the line is the first item. *)
Lemma split_nl_line (line rest : string) :
  split_nl line = [line] →
  split_nl (line +:+ String "010" rest) = line :: split_nl rest.
Proof.
  induction line as [|c line IH]; [done|].
  rewrite append_cons. simpl.
  destruct (Ascii.eqb c "010"); [done|].
  pose proof (split_nl_nonempty line) as Hne.
  destruct (split_nl line) as [|l ls] eqn:Hline; [done|].
  intros [= -> ->]. by rewrite IH.
Qed.

End OllamaService.

(** ** The OpenAI-compatible routes: [server/src/routes/openai.ts] *)

Module OpenAI.
Import Js.

(** *** Requests *)

(** The shapes [completionsRequestSchema] accepts for [prompt]; tokens are
    taken to be integers. *)
Inductive Prompt :=
| PromptString (s : string)
| PromptStrings (items : list string)
| PromptTokens (tokens : list Z)
| PromptTokenArrays (arrays : list (list Z)).

Inductive Stop :=
| StopString (s : string)
| StopArray (items : list string).

Record StreamOptions := { include_usage : bool }.

(** [validatedData]: the value [completionsRequestSchema.validate] returns,
    every default filled in; a field that [allow(null)] is an [option]. *)
Record CompletionsRequest := {
  model : string;
  prompt : Prompt;
  best_of : Z;
  echo : bool;
  frequency_penalty : Q;
  logit_bias : JsVal;
  logprobs : option Z;
  max_tokens : Z;
  n : Z;
  presence_penalty : Q;
  seed : option Z;
  stop : option Stop;
  stream : bool;
  stream_options : option StreamOptions;
  suffix : option string;
  temperature : Q;
  top_p : Q;
  user : option string;
}.

(** [error.details[0]] of a failed validation. *)
Record JoiError := {
  detail_message : string;
  detail_path : list string;
}.

(** What the handler reads of the HTTP request and of the clock. *)
Record Context := {
  body : JsVal;
  ip : option string;
  user_agent : option string;
  uuid : string;            (* uuidv4() *)
  now_ms : Z;               (* Date.now() *)
  now_iso : string;         (* new Date().toISOString() *)
}.

(** The job handed to the scheduler. *)
Record InferenceRequest := {
  req_id : string;
  req_model : string;
  req_prompt : string;
  req_stream : bool;
  req_options : gmap string JsVal;
  req_priority : string;
  req_timeout : Z;
  req_metadata : list (string * JsVal);
}.

(** Modelled from the spec: the type [InferenceResponse] is declared in
    [@/types], not under src; section 6 lists the fields of the final record
    ([response], [done_reason], [prompt_eval_count], [eval_count]), each of
    them optional. *)
Record InferenceResponse := {
  response : option string;
  done_reason : option string;
  prompt_eval_count : option Z;
  eval_count : option Z;
}.

(** The part of a streamed chunk that [onChunk] reads: [chunk.response]. *)
Record StreamResponse := { chunk_response : option string }.

(** *** Responses *)

Record Choice := {
  text : string;
  index : Z;
  choice_logprobs : option JsVal;   (* logprobs: always null *)
  finish_reason : option string;    (* null on a content frame *)
}.

Record Usage := {
  prompt_tokens : Z;
  completion_tokens : Z;
  total_tokens : Z;
}.

(** A completions object; [usage] is [None] when the object has no such
    property. *)
Record TextCompletion := {
  cmpl_id : string;
  cmpl_object : string;
  cmpl_created : Z;
  cmpl_model : string;
  choices : list Choice;
  usage : option Usage;
}.

Record ErrorObject := {
  error_message : string;
  error_type : string;
  error_param : option string;
  error_code : string;
}.

Record ModelCard := {
  id : string;
  object : string;
  created : option Z;               (* [None] is NaN, an unreadable date *)
  owned_by : string;
  permission : list JsVal;
  root : string;
  parent : option string;
}.

(** A value given to [res.json] or to [streamOpenAIResponse]. *)
Inductive Payload :=
| Completion (c : TextCompletion)
| Sentinel (s : string)
| ErrorBody (e : ErrorObject)
| ModelList (data : list ModelCard).

(** The calls made on [res], in order.  [write data] is
    [streamOpenAIResponse(res, data)], which writes the line
    [data: <JSON.stringify(data)>] and an empty line. *)
Inductive ResOp :=
| setHeader (name value : string)
| status (code : Z)
| json (body : Payload)
| write (data : Payload)
| end_.

(** How the handler leaves: it has answered on [res], or an error made with
    [createError(message, statusCode)] went to the error middleware. *)
Inductive Outcome :=
| Sent (ops : list ResOp)
| Raised (statusCode : Z) (message : string).

(** Modelled from the spec: the error middleware ([@/middleware/errorHandler])
    is not under src; by section 6 an unavailable model is answered with HTTP
    404, the status code the error was created with. *)
Definition http_status (o : Outcome) : Z :=
  match o with
  | Raised statusCode _ => statusCode
  | Sent ops =>
      default 200%Z
        (last (omap (λ op, match op with status code => Some code | _ => None end) ops))
  end.

(** *** The worker registry, as the routes see it *)

(** Modelled from the spec: the worker record is declared in [@/types], not
    under src; section 3 gives a worker its liveness and its capabilities. *)
Inductive Liveness := joining | ready | draining | lost.

Record OllamaModel := {
  name : string;
  modified_at : option string;
}.

Record Capabilities := { availableModels : option (list OllamaModel) }.

Record Worker := {
  workerId : string;
  liveness : Liveness;
  capabilities : option Capabilities;
}.

(** [worker.capabilities && worker.capabilities.availableModels], iterated. *)
Definition inventory (w : Worker) : list OllamaModel :=
  match capabilities w with
  | Some c => default [] (availableModels c)
  | None => []
  end.

Definition is_ready (w : Worker) : bool :=
  match liveness w with ready => true | _ => false end.

(** Modelled from the spec: [WorkerRegistry.getAllAvailableModels] is not
    under src; section 4.1: the union of inventories over all [ready]
    workers. *)
Definition getAllAvailableModels (workers : list Worker) : list string :=
  remove_dups (w ← filter (λ w, is_ready w = true) workers; name <$> inventory w).

(** *** Helpers of the route *)

Definition unavailable (model : string) : string :=
  "Model '" +:+ model +:+ "' is not available on any worker in the network".

(** [validateModelExists]: [None] when the model is available, else the error
    thrown. *)
Definition validateModelExists (workers : list Worker) (model : string)
  : option (Z * string) :=
  if existsb (String.eqb model) (getAllAvailableModels workers) then None
  else Some (404%Z, unavailable model).

(** [JSON.stringify] of an array of integers, and of an array of those. *)
Definition stringify_tokens (tokens : list Z) : string :=
  "[" +:+ String.concat "," (pretty <$> tokens) +:+ "]".

Definition stringify_token_arrays (arrays : list (list Z)) : string :=
  "[" +:+ String.concat "," (stringify_tokens <$> arrays) +:+ "]".

(** [convertPromptToString] *)
Definition convertPromptToString (prompt : Prompt) : string :=
  match prompt with
  | PromptString s => s
  | PromptStrings items => String.concat (String "010" "") items
  | PromptTokens [] | PromptTokenArrays [] => ""
  | PromptTokens tokens => stringify_tokens tokens
  | PromptTokenArrays arrays => stringify_token_arrays arrays
  end.

(** The [finish_reason] computed by [convertToOpenAICompletionsResponse]. *)
Definition finish_reason_of (response : InferenceResponse) : string :=
  if decide (done_reason response = Some "stop") then "stop"
  else if decide (done_reason response = Some "length") then "length"
  else if decide (eval_count response = Some 0%Z) then "length"
  else "stop".

(** [convertToOpenAICompletionsResponse]; [created] is
    [Math.floor(Date.now() / 1000)]. *)
Definition convertToOpenAICompletionsResponse (response : InferenceResponse)
    (model requestId prompt : string) (echo : bool) (created : Z) : TextCompletion :=
  let text := default "" (OpenAI.response response) in
  let promptTokens := default 0%Z (prompt_eval_count response) in
  let completionTokens := default 0%Z (eval_count response) in
  {| cmpl_id := "cmpl-" +:+ requestId;
     cmpl_object := "text_completion";
     cmpl_created := created;
     cmpl_model := model;
     choices := [ {| text := if echo then prompt +:+ text else text;
                     index := 0;
                     choice_logprobs := None;
                     finish_reason := Some (finish_reason_of response) |} ];
     usage := Some {| prompt_tokens := promptTokens;
                      completion_tokens := completionTokens;
                      total_tokens := promptTokens + completionTokens |} |}.

(** [if (...) { options.k = x; }]: the value to assign, if the test holds. *)
Definition put_when (k : string) (x : option JsVal) (options : gmap string JsVal)
  : gmap string JsVal :=
  match x with
  | Some x => <[k := x]> options
  | None => options
  end.

(** The value [x] when the test [c] of the [if] holds. *)
Definition when (c : bool) (x : JsVal) : option JsVal :=
  if c then Some x else None.

(** [Array.isArray(stop) ? stop : [stop]] *)
Definition stop_array (stop : Stop) : JsVal :=
  match stop with
  | StopString s => JArr [JStr s]
  | StopArray items => JArr (JStr <$> items)
  end.

(** The construction of [ollamaOptions]. *)
Definition ollamaOptions (v : CompletionsRequest) : gmap string JsVal :=
  let o := ∅ in
  let o := put_when "temperature"
             (when (negb (Qeq_bool (temperature v) 1)) (JNum (temperature v))) o in
  let o := put_when "top_p"
             (when (negb (Qeq_bool (top_p v) 1)) (JNum (top_p v))) o in
  let o := put_when "num_predict"
             (when (negb (max_tokens v =? 16)%Z) (JNum (inject_Z (max_tokens v)))) o in
  let o := put_when "seed" ((λ seed, JNum (inject_Z seed)) <$> seed v) o in
  let o := put_when "stop" (stop_array <$> stop v) o in
  let o := put_when "frequency_penalty"
             (when (negb (Qeq_bool (frequency_penalty v) 0))
                (JNum (frequency_penalty v))) o in
  let o := put_when "presence_penalty"
             (when (negb (Qeq_bool (presence_penalty v) 0))
                (JNum (presence_penalty v))) o in
  o.

(** An optional string as a value: missing ([undefined]) or [null]. *)
Definition opt_str (o : option string) : JsVal := from_option JStr JUndefined o.
Definition opt_null_str (o : option string) : JsVal := from_option JStr JNull o.
Definition opt_null_int (o : option Z) : JsVal := from_option (λ z, JNum (inject_Z z)) JNull o.

(** The construction of [inferenceRequest]. *)
Definition inferenceRequest (ctx : Context) (v : CompletionsRequest) : InferenceRequest :=
  {| req_id := uuid ctx;
     req_model := model v;
     req_prompt := convertPromptToString (prompt v);
     req_stream := stream v;
     req_options := ollamaOptions v;
     req_priority := "medium";
     req_timeout := 300000;
     req_metadata :=
       [("openaiEndpoint", JStr "/v1/completions");
        ("originalRequest",
         JObj [("best_of", JNum (inject_Z (best_of v)));
               ("echo", JBool (echo v));
               ("logprobs", opt_null_int (logprobs v));
               ("n", JNum (inject_Z (n v)));
               ("user", opt_str (user v))]);
        ("suffix", opt_null_str (suffix v));
        ("submittedAt", JStr (now_iso ctx));
        ("clientIp", opt_str (ip ctx));
        ("userAgent", opt_str (user_agent ctx))] |}.

(** *** The streaming callbacks *)

(** The object literal shared by [openaiChunk] and [finalChunk]. *)
Definition frame (ctx : Context) (v : CompletionsRequest) (created : Z)
    (text : string) (finish_reason : option string) (usage : option Usage)
  : TextCompletion :=
  {| cmpl_id := "cmpl-" +:+ uuid ctx;
     cmpl_object := "text_completion";
     cmpl_created := created;
     cmpl_model := model v;
     choices := [ {| text := text; index := 0; choice_logprobs := None;
                     finish_reason := finish_reason |} ];
     usage := usage |}.

(** [onChunk]: takes and returns [totalText], the variable it closes over. *)
Definition onChunk (ctx : Context) (v : CompletionsRequest) (promptText : string)
    (created : Z) (totalText : string) (chunk : StreamResponse)
  : string * list ResOp :=
  let deltaText := default "" (chunk_response chunk) in
  let totalText := totalText +:+ deltaText in
  let text :=
    if echo v && String.eqb totalText deltaText
    then promptText +:+ deltaText
    else deltaText in
  (totalText, [write (Completion (frame ctx v created text None None))]).

(** [validatedData.stream_options?.include_usage] *)
Definition wants_usage (v : CompletionsRequest) : bool :=
  match stream_options v with
  | Some o => include_usage o
  | None => false
  end.

(** [const { usage, ...chunkWithoutUsage } = finalChunk] *)
Definition without_usage (c : TextCompletion) : TextCompletion :=
  {| cmpl_id := cmpl_id c; cmpl_object := cmpl_object c;
     cmpl_created := cmpl_created c; cmpl_model := cmpl_model c;
     choices := choices c; usage := None |}.

Definition finalChunk (ctx : Context) (v : CompletionsRequest) (created : Z)
    (result : InferenceResponse) : TextCompletion :=
  frame ctx v created "" (Some "stop")
    (Some {| prompt_tokens := default 0%Z (prompt_eval_count result);
             completion_tokens := default 0%Z (eval_count result);
             total_tokens := default 0%Z (prompt_eval_count result)
                             + default 0%Z (eval_count result) |}).

(** [onComplete] *)
Definition onComplete (ctx : Context) (v : CompletionsRequest) (created : Z)
    (result : InferenceResponse) : list ResOp :=
  [ write (Completion (if wants_usage v then finalChunk ctx v created result
                       else without_usage (finalChunk ctx v created result)));
    write (Sentinel "[DONE]");
    end_ ].

Definition server_error (message : string) : ErrorObject :=
  {| error_message := message; error_type := "server_error";
     error_param := None; error_code := "internal_error" |}.

(** [onError] *)
Definition onError (message : string) : list ResOp :=
  [ write (ErrorBody (server_error message)); end_ ].

(** A call the scheduler makes on one of the three callbacks. *)
Inductive Callback :=
| Chunk (chunk : StreamResponse)
| Complete (result : InferenceResponse)
| Error (message : string).

(** The calls on [res] made by a sequence of callback invocations, starting
    with the given [totalText]. *)
Fixpoint run_callbacks (ctx : Context) (v : CompletionsRequest) (promptText : string)
    (created : Z) (totalText : string) (calls : list Callback) : list ResOp :=
  match calls with
  | [] => []
  | Chunk chunk :: rest =>
      let '(totalText', ops) := onChunk ctx v promptText created totalText chunk in
      ops ++ run_callbacks ctx v promptText created totalText' rest
  | Complete result :: rest =>
      onComplete ctx v created result
        ++ run_callbacks ctx v promptText created totalText rest
  | Error message :: rest =>
      onError message ++ run_callbacks ctx v promptText created totalText rest
  end.

(** The texts of the content frames among the calls on [res]. *)
Definition frame_texts (ops : list ResOp) : list string :=
  ops ≫= λ op,
    match op with
    | write (Completion c) =>
        omap (λ ch, match finish_reason ch with
                    | None => Some (text ch)
                    | Some _ => None
                    end) (choices c)
    | _ => []
    end.

(** *** POST /v1/completions *)

Section Completions.

(** The scheduler ([@/services/JobScheduler], not under src) with its queue. *)
Variable Scheduler : Type.

(** [jobScheduler.submitAndWait(request)]: the new state, and the result or
    the message of the error thrown. *)
Variable submitAndWait :
  InferenceRequest → Scheduler → Scheduler * (string + InferenceResponse).

(** [jobScheduler.submitStreamingJob(request, onChunk, onComplete, onError)]:
    the new state, the callbacks it invokes in order, and the message of the
    error it rejects with, if it does. *)
Variable submitStreamingJob :
  InferenceRequest → Scheduler → Scheduler * list Callback * option string.

(** [completionsRequestSchema.validate(req.body)] *)
Variable validate : JsVal → JoiError + CompletionsRequest.

Record Handled := {
  scheduler : Scheduler;                 (* the scheduler afterwards *)
  submitted : list InferenceRequest;     (* the jobs handed to it *)
  outcome : Outcome;
}.

Definition invalid_request (e : JoiError) : ErrorObject :=
  {| error_message := "Invalid request: " +:+ detail_message e;
     error_type := "invalid_request_error";
     error_param :=
       (* error.details[0]?.path.join(".") || null *)
       (let param := String.concat "." (detail_path e) in
        if String.eqb param "" then None else Some param);
     error_code := "invalid_parameter" |}.

Definition sse_headers : list ResOp :=
  [ setHeader "Content-Type" "text/event-stream";
    setHeader "Cache-Control" "no-cache";
    setHeader "Connection" "keep-alive";
    setHeader "Access-Control-Allow-Origin" "*" ].

(** The handler of [router.post("/v1/completions", ...)]. *)
Definition post_completions (ctx : Context) (workers : list Worker) (s : Scheduler)
  : Handled :=
  match validate (body ctx) with
  | inl e =>
      {| scheduler := s; submitted := [];
         outcome := Sent [status 400; json (ErrorBody (invalid_request e))] |}
  | inr v =>
      match validateModelExists workers (model v) with
      | Some (statusCode, message) =>
          {| scheduler := s; submitted := []; outcome := Raised statusCode message |}
      | None =>
          let promptText := convertPromptToString (prompt v) in
          let request := inferenceRequest ctx v in
          if stream v then
            let created := (now_ms ctx / 1000)%Z in
            let '(s', calls, rejection) := submitStreamingJob request s in
            let ops := sse_headers ++ run_callbacks ctx v promptText created "" calls in
            {| scheduler := s'; submitted := [request];
               outcome :=
                 Sent (ops ++ match rejection with
                              | Some message =>
                                  [status 500; json (ErrorBody (server_error message))]
                              | None => []
                              end) |}
          else
            match submitAndWait request s with
            | (s', inr result) =>
                {| scheduler := s'; submitted := [request];
                   outcome :=
                     Sent [json (Completion
                             (convertToOpenAICompletionsResponse result (model v)
                                (req_id request) promptText (echo v)
                                (now_ms ctx / 1000)%Z))] |}
            | (s', inl message) =>
                {| scheduler := s'; submitted := [request];
                   outcome := Sent [status 500; json (ErrorBody (server_error message))] |}
            end
      end
  end.

End Completions.

Arguments scheduler {Scheduler} _.
Arguments submitted {Scheduler} _.
Arguments outcome {Scheduler} _.

(** *** GET /v1/models *)

Section Models.

(** [new Date(text).getTime()], in milliseconds; [None] is NaN. *)
Variable Date_parse : string → option Z.

(** The sign of [a.localeCompare(b)]. *)
Variable localeCompare : string → string → comparison.

(** [Math.floor(new Date(model.modified_at || new Date()).getTime() / 1000)] *)
Definition created_of (now_ms : Z) (m : OllamaModel) : option Z :=
  match modified_at m with
  | Some stamp =>
      if String.eqb stamp "" then Some (now_ms / 1000)%Z
      else (λ ms, (ms / 1000)%Z) <$> Date_parse stamp
  | None => Some (now_ms / 1000)%Z
  end.

Definition card (now_ms : Z) (m : OllamaModel) : ModelCard :=
  {| id := name m; object := "model"; created := created_of now_ms m;
     owned_by := "gridllm"; permission := []; root := name m; parent := None |}.

(** [modelsMap]: a [Map] is its entries in insertion order. *)
Definition map_has (k : string) (entries : list (string * ModelCard)) : bool :=
  existsb (λ e, String.eqb k e.1) entries.

Fixpoint map_set (k : string) (x : ModelCard) (entries : list (string * ModelCard))
  : list (string * ModelCard) :=
  match entries with
  | [] => [(k, x)]
  | (k', y) :: rest =>
      if String.eqb k k' then (k', x) :: rest else (k', y) :: map_set k x rest
  end.

(** The body of the inner loop. *)
Definition add_model (now_ms : Z) (modelsMap : list (string * ModelCard))
    (m : OllamaModel) : list (string * ModelCard) :=
  if map_has (name m) modelsMap then modelsMap
  else map_set (name m) (card now_ms m) modelsMap.

(** The two nested loops over the workers and their models. *)
Definition aggregate (now_ms : Z) (workers : list Worker) : list (string * ModelCard) :=
  fold_left (λ modelsMap w, fold_left (add_model now_ms) (inventory w) modelsMap)
    workers [].

(** [Array.prototype.sort] with a comparator: a stable sort, here by
    insertion.  [x] goes before the first item it does not follow. *)
Fixpoint insert_by (cmp : ModelCard → ModelCard → comparison) (x : ModelCard)
    (sorted : list ModelCard) : list ModelCard :=
  match sorted with
  | [] => [x]
  | y :: rest =>
      match cmp x y with
      | Gt => y :: insert_by cmp x rest
      | _ => x :: sorted
      end
  end.

Definition sort_by (cmp : ModelCard → ModelCard → comparison) (items : list ModelCard)
  : list ModelCard :=
  foldr (insert_by cmp) [] items.

Definition by_id (a b : ModelCard) : comparison := localeCompare (id a) (id b).

(** The [data] of the list that the handler answers with. *)
Definition models (now_ms : Z) (workers : list Worker) : list ModelCard :=
  sort_by by_id ((aggregate now_ms workers).*2).

(** The handler of [router.get("/v1/models", ...)]; [workers] is
    [workerRegistry.getAllWorkers()]. *)
Definition get_models (now_ms : Z) (workers : list Worker) : Outcome :=
  Sent [json (ModelList (models now_ms workers))].

(** Every model descriptor the registry lists, in enumeration order. *)
Definition descriptors (workers : list Worker) : list OllamaModel :=
  workers ≫= inventory.

(** The first descriptor listed under a name. *)
Definition first_descriptor (workers : list Worker) (model : string)
  : option OllamaModel :=
  find (λ m, String.eqb model (name m)) (descriptors workers).

End Models.

(** *** Samples *)

Definition sample_request : CompletionsRequest :=
  {| model := "m1"; prompt := PromptString "Hi"; best_of := 1; echo := true;
     frequency_penalty := 0; logit_bias := JObj []; logprobs := None;
     max_tokens := 16; n := 1; presence_penalty := 0; seed := None; stop := None;
     stream := true; stream_options := Some {| include_usage := true |};
     suffix := None; temperature := 1; top_p := 1; user := None |}.

Definition sample_context : Context :=
  {| body := JObj [("model", JStr "m1"); ("prompt", JStr "Hi")];
     ip := Some "10.0.0.7"; user_agent := None; uuid := "job-1";
     now_ms := 1700000000999; now_iso := "2023-11-14T22:13:20.999Z" |}.

Definition delta (text : string) : StreamResponse :=
  {| chunk_response := Some text |}.

(** A generation cut by the token limit. *)
Definition cut_result : InferenceResponse :=
  {| response := Some "Hello"; done_reason := Some "length";
     prompt_eval_count := Some 1%Z; eval_count := Some 16%Z |}.

(** A generation of no token, with no reason given. *)
Definition empty_result : InferenceResponse :=
  {| response := Some ""; done_reason := None;
     prompt_eval_count := Some 1%Z; eval_count := Some 0%Z |}.

(** *** The finish reason *)

(** The non-streaming response derives the finish reason: [stop] and [length]
    are passed on; with another reason or none, a completion count that is
    zero gives [length] and anything else [stop]. *)
Lemma convert_finish_reason (response : InferenceResponse)
    (model requestId prompt : string) (echo : bool) (created : Z) :
  finish_reason <$> choices (convertToOpenAICompletionsResponse response model
                               requestId prompt echo created)
    = [Some (finish_reason_of response)]
  ∧ (done_reason response = Some "stop" → finish_reason_of response = "stop")
  ∧ (done_reason response = Some "length" → finish_reason_of response = "length")
  ∧ (done_reason response ≠ Some "stop" → done_reason response ≠ Some "length" →
       finish_reason_of response
         = if decide (eval_count response = Some 0%Z) then "length" else "stop").
Proof.
  unfold finish_reason_of. repeat split.
  - intros ->. by rewrite decide_True.
  - intros ->. by rewrite decide_False, decide_True.
  - intros Hstop Hlength.
    rewrite decide_False by done. by rewrite decide_False by done.
Qed.

(** The final frame of a stream does not: its finish reason is the constant
    [stop]. *)
Lemma finalChunk_finish_reason (ctx : Context) (v : CompletionsRequest) (created : Z)
    (result : InferenceResponse) :
  ∃ final,
    onComplete ctx v created result
      = [write (Completion final); write (Sentinel "[DONE]"); end_]
    ∧ finish_reason <$> choices final = [Some "stop"].
Proof.
  unfold onComplete. eexists. split; [reflexivity|].
  by destruct (wants_usage v).
Qed.

(** C1, where the code departs from the claim: for a worker result with
    [done_reason = "length"], and for one with no reason and an [eval_count]
    of zero, the non-streaming response reports [length]; the final frame of
    the stream reports [stop], for these and for every result. *)
Theorem streaming_final_frame_reports_stop (ctx : Context) (v : CompletionsRequest)
    (created : Z) :
  (∀ result, result = cut_result ∨ result = empty_result →
     finish_reason <$> choices (convertToOpenAICompletionsResponse result (model v)
                                  (uuid ctx) "Hi" (echo v) created)
       = [Some "length"])
  ∧ (∀ result,
       ∃ final,
         onComplete ctx v created result
           = [write (Completion final); write (Sentinel "[DONE]"); end_]
         ∧ finish_reason <$> choices final = [Some "stop"]).
Proof.
  split.
  - intros result Hresult.
    destruct (convert_finish_reason result (model v) (uuid ctx) "Hi" (echo v) created)
      as (-> & _ & Hlength & Hnone).
    destruct Hresult as [-> | ->]; [by rewrite Hlength|].
    by rewrite Hnone.
  - intros result. apply finalChunk_finish_reason.
Qed.

(** *** Echo *)

Lemma append_length (a b : string) :
  String.length (a +:+ b) = String.length a + String.length b.
Proof. induction a as [|c a IH]; [done|]. simpl. by rewrite <- IH. Qed.

(** [totalText === deltaText] after [totalText += deltaText]: the text
    accumulated before this chunk is empty. *)
Lemma total_is_delta (totalText deltaText : string) :
  String.eqb (totalText +:+ deltaText) deltaText = String.eqb totalText "".
Proof.
  destruct (String.eqb_spec totalText "") as [->|Hne].
  - apply String.eqb_refl.
  - apply String.eqb_neq. intros Heq.
    apply (f_equal String.length) in Heq. rewrite append_length in Heq.
    destruct totalText; [done|]. simpl in Heq. lia.
Qed.

(** The texts of the content frames, chunk by chunk: the prompt goes in front
    of a delta whenever [echo] is set and every delta before it was empty. *)
Fixpoint echo_texts (echo : bool) (promptText : string) (nothing_yet : bool)
    (deltas : list string) : list string :=
  match deltas with
  | [] => []
  | d :: rest =>
      (if echo && nothing_yet then promptText +:+ d else d)
        :: echo_texts echo promptText (nothing_yet && String.eqb d "") rest
  end.

Lemma append_empty_iff (a b : string) :
  String.eqb (a +:+ b) "" = String.eqb a "" && String.eqb b "".
Proof. destruct a; [by destruct b | done]. Qed.

Lemma onChunk_texts (ctx : Context) (v : CompletionsRequest) (promptText : string)
    (created : Z) (chunks : list StreamResponse) (totalText : string) :
  frame_texts (run_callbacks ctx v promptText created totalText (Chunk <$> chunks))
    = echo_texts (echo v) promptText (String.eqb totalText "")
        ((λ c, default "" (chunk_response c)) <$> chunks).
Proof.
  revert totalText. induction chunks as [|c chunks IH]; intros totalText; [done|].
  simpl. unfold frame_texts in *. simpl.
  rewrite IH, total_is_delta, append_empty_iff. done.
Qed.

(** When the first delta is not empty, the prompt is in front of the first
    chunk and of no other. *)
Lemma echo_once_after_text (promptText d : string) (rest : list string) :
  d ≠ "" →
  echo_texts true promptText true (d :: rest) = (promptText +:+ d) :: rest.
Proof.
  intros Hd. simpl. f_equal.
  apply String.eqb_neq in Hd. rewrite Hd.
  induction rest as [|d' rest IH]; [done|]. simpl. by rewrite IH.
Qed.

(** Scenario 2 of the specification. *)
Example echo_scenario :
  frame_texts (run_callbacks sample_context sample_request "Hi" 1700000000 ""
                 [Chunk (delta "He"); Chunk (delta "llo")])
    = ["HiHe"; "llo"].
Proof. by vm_compute. Qed.

(** C2, where the code departs from the claim: with [echo] set and an empty
    first delta, the prompt is in front of the first chunk and again in front
    of the second. *)
Theorem echo_repeats_after_empty_delta :
  frame_texts (run_callbacks sample_context sample_request "Hi" 1700000000 ""
                 (Chunk <$> [delta ""; delta "He"; delta "llo"]))
    = ["Hi"; "HiHe"; "llo"]
  ∧ echo sample_request = true.
Proof.
  split; [|done].
  rewrite (onChunk_texts sample_context sample_request "Hi" 1700000000
             [delta ""; delta "He"; delta "llo"] "").
  by vm_compute.
Qed.

(** Non-streaming: the prompt is in front of the aggregate text, once. *)
Lemma convert_echo (response : InferenceResponse) (model requestId prompt : string)
    (echo : bool) (created : Z) :
  text <$> choices (convertToOpenAICompletionsResponse response model requestId
                      prompt echo created)
    = [if echo then prompt +:+ default "" (OpenAI.response response)
       else default "" (OpenAI.response response)].
Proof. done. Qed.

(** *** The options forwarded to the worker *)









(** A request that sets every sampling field. *)
Definition tuned_request : CompletionsRequest :=
  {| model := "m1"; prompt := PromptString "Hi"; best_of := 1; echo := false;
     frequency_penalty := 1 # 2; logit_bias := JObj []; logprobs := None;
     max_tokens := 64; n := 1; presence_penalty := -(1 # 4); seed := Some 42%Z;
     stop := Some (StopString "END"); stream := false; stream_options := None;
     suffix := None; temperature := 7 # 10; top_p := 9 # 10; user := None |}.

Example ollamaOptions_default : ollamaOptions sample_request = ∅.
Proof. done. Qed.

Example ollamaOptions_tuned :
  ollamaOptions tuned_request
    = {[ "temperature" := JNum (7 # 10); "top_p" := JNum (9 # 10);
         "num_predict" := JNum 64; "seed" := JNum 42;
         "stop" := JArr [JStr "END"]; "frequency_penalty" := JNum (1 # 2);
         "presence_penalty" := JNum (-(1 # 4)) ]}.
Proof.
  apply map_eq. intros k. unfold ollamaOptions, tuned_request. by vm_compute.
Qed.

(** *** The end of a stream *)


(** *** An unknown model *)

Lemma getAllAvailableModels_elem_of (workers : list Worker) (model : string) :
  model ∈ getAllAvailableModels workers
  ↔ ∃ w m, w ∈ workers ∧ is_ready w = true ∧ m ∈ inventory w ∧ name m = model.
Proof.
  unfold getAllAvailableModels.
  rewrite elem_of_remove_dups, list_elem_of_bind. split.
  - intros (w & Hm & Hw). apply list_elem_of_filter in Hw as [Hready Hw].
    apply list_elem_of_fmap in Hm as (m & -> & Hm). eauto 6.
  - intros (w & m & Hw & Hready & Hm & <-). exists w. split.
    + by apply list_elem_of_fmap_2.
    + by apply list_elem_of_filter.
Qed.

Lemma validateModelExists_unknown (workers : list Worker) (model : string) :
  (∀ w m, w ∈ workers → m ∈ inventory w → name m ≠ model) →
  validateModelExists workers model = Some (404%Z, unavailable model).
Proof.
  intros Hnone. unfold validateModelExists.
  destruct (existsb _ _) eqn:E; [|done].
  apply existsb_exists in E as (known & Hin & Heq).
  apply String.eqb_eq in Heq as <-.
  apply list_elem_of_In, getAllAvailableModels_elem_of in Hin
    as (w & m & Hw & _ & Hm & Hname).
  by destruct (Hnone w m).
Qed.

Section CompletionsFacts.

Variable Scheduler : Type.
Variable submitAndWait :
  InferenceRequest → Scheduler → Scheduler * (string + InferenceResponse).
Variable submitStreamingJob :
  InferenceRequest → Scheduler → Scheduler * list Callback * option string.
Variable validate : JsVal → JoiError + CompletionsRequest.

(** Modelled from the spec: [depth() → integer], the number of queued jobs
    (section 4.2); the queue is not under src. *)
Variable depth : Scheduler → nat.

#[local] Abbreviation handle :=
  (post_completions Scheduler submitAndWait submitStreamingJob validate).

(** The scheduler changes only through a submitted job. *)
Lemma nothing_submitted_nothing_changed (ctx : Context) (workers : list Worker)
    (s : Scheduler) :
  submitted (handle ctx workers s) = [] → scheduler (handle ctx workers s) = s.
Proof.
  unfold post_completions.
  destruct (validate (body ctx)) as [e|v]; [done|].
  destruct (validateModelExists workers (model v)) as [[code message]|]; [done|].
  destruct (stream v).
  - by destruct (submitStreamingJob _ s) as [[s' calls] rejection].
  - by destruct (submitAndWait _ s) as [s' [message|result]].
Qed.

(** C7.  A valid request for a model that no worker advertises leaves the
    handler with the 404 error of [validateModelExists]: no job is built or
    handed to the scheduler, and the scheduler, with the depth of its queue,
    is as before. *)
Theorem unknown_model_is_404_before_submission (ctx : Context)
    (workers : list Worker) (s : Scheduler) (v : CompletionsRequest) :
  validate (body ctx) = inr v →
  (∀ w m, w ∈ workers → m ∈ inventory w → name m ≠ model v) →
  outcome (handle ctx workers s) = Raised 404 (unavailable (model v))
  ∧ http_status (outcome (handle ctx workers s)) = 404%Z
  ∧ submitted (handle ctx workers s) = []
  ∧ scheduler (handle ctx workers s) = s
  ∧ depth (scheduler (handle ctx workers s)) = depth s.
Proof.
  intros Hvalid Hnone.
  assert (Hrun : handle ctx workers s =
                 {| scheduler := s; submitted := [];
                    outcome := Raised 404 (unavailable (model v)) |}).
  { unfold post_completions.
    by rewrite Hvalid, (validateModelExists_unknown workers (model v) Hnone). }
  by rewrite Hrun.
Qed.

End CompletionsFacts.

(** A registry with one ready worker that has [m1], and a scheduler that is
    its queue. *)
Definition m1 : OllamaModel :=
  {| name := "m1"; modified_at := Some "2024-01-01T00:00:00Z" |}.

Definition worker_of (workerId : string) (liveness : Liveness)
    (models : list OllamaModel) : Worker :=
  {| workerId := workerId; liveness := liveness;
     capabilities := Some {| availableModels := Some models |} |}.

Definition queue_submitAndWait (request : InferenceRequest)
    (queue : list InferenceRequest)
  : list InferenceRequest * (string + InferenceResponse) :=
  (queue ++ [request], inl "Job timed out").

Definition queue_submitStreamingJob (request : InferenceRequest)
    (queue : list InferenceRequest)
  : list InferenceRequest * list Callback * option string :=
  (queue ++ [request], [], None).

Definition unknown_request : CompletionsRequest :=
  {| model := "unknown"; prompt := PromptString "Hi"; best_of := 1; echo := false;
     frequency_penalty := 0; logit_bias := JObj []; logprobs := None;
     max_tokens := 16; n := 1; presence_penalty := 0; seed := None; stop := None;
     stream := false; stream_options := None; suffix := None; temperature := 1;
     top_p := 1; user := None |}.

Lemma unknown_model_is_404_witness :
  let h := post_completions (list InferenceRequest) queue_submitAndWait
             queue_submitStreamingJob (λ _, inr unknown_request)
             sample_context [worker_of "W1" ready [m1]] [] in
  outcome h = Raised 404 (unavailable "unknown")
  ∧ http_status (outcome h) = 404%Z
  ∧ submitted h = []
  ∧ scheduler h = []
  ∧ length (scheduler h) = 0.
Proof.
  apply (unknown_model_is_404_before_submission (list InferenceRequest)
           queue_submitAndWait queue_submitStreamingJob (λ _, inr unknown_request)
           length sample_context [worker_of "W1" ready [m1]] [] unknown_request).
  - reflexivity.
  - intros w m Hw Hm.
    apply list_elem_of_singleton in Hw as ->.
    apply list_elem_of_singleton in Hm as ->. done.
Defined.

(** The same request for a model the worker has is submitted. *)
Example known_model_is_submitted :
  let h := post_completions (list InferenceRequest) queue_submitAndWait
             queue_submitStreamingJob (λ _, inr sample_request)
             sample_context [worker_of "W1" ready [m1]] [] in
  length (scheduler h) = 1 ∧ req_id <$> submitted h = ["job-1"].
Proof. by vm_compute. Qed.

(** *** The list of models *)

(** The descriptors that add an entry to [modelsMap]: of the descriptors
    under one name, the first that is listed, unless the name is in the map
    already. *)
Fixpoint first_seen (seen : gset string) (ds : list OllamaModel) : list OllamaModel :=
  match ds with
  | [] => []
  | m :: rest =>
      if decide (name m ∈ seen) then first_seen seen rest
      else m :: first_seen (seen ∪ {[name m]}) rest
  end.

Lemma first_seen_names (seen : gset string) (ds : list OllamaModel) (nm : string) :
  nm ∈ (name <$> first_seen seen ds) ↔ (nm ∉ seen) ∧ nm ∈ (name <$> ds).
Proof.
  revert seen. induction ds as [|m rest IH]; intros seen; simpl.
  - rewrite elem_of_nil. tauto.
  - destruct (decide (name m ∈ seen)) as [Hin|Hout].
    + rewrite IH, elem_of_cons. split; [tauto|].
      intros [Hnm [->|Hrest]]; [done | tauto].
    + rewrite fmap_cons, !elem_of_cons, IH, not_elem_of_union, not_elem_of_singleton.
      split.
      * intros [->|[[Hnm Hne] Hrest]]; tauto.
      * intros [Hnm [->|Hrest]]; [tauto|].
        destruct (decide (nm = name m)); tauto.
Qed.

Lemma first_seen_NoDup (seen : gset string) (ds : list OllamaModel) :
  NoDup (name <$> first_seen seen ds).
Proof.
  revert seen. induction ds as [|m rest IH]; intros seen; simpl.
  - constructor.
  - destruct (decide (name m ∈ seen)); [apply IH|].
    rewrite fmap_cons. apply NoDup_cons. split; [|apply IH].
    rewrite first_seen_names, not_elem_of_union, not_elem_of_singleton. tauto.
Qed.

(** An entry comes from the first descriptor listed under its name. *)
Lemma first_seen_find (seen : gset string) (ds : list OllamaModel) (m : OllamaModel) :
  m ∈ first_seen seen ds →
  find (λ m', String.eqb (name m) (name m')) ds = Some m.
Proof.
  revert seen. induction ds as [|d rest IH]; intros seen; simpl.
  - by rewrite elem_of_nil.
  - intros Hm.
    assert (Hstep : ∀ seen', m ∈ first_seen seen' rest → name d ∈ seen' →
              (if String.eqb (name m) (name d) then Some d
               else find (λ m', String.eqb (name m) (name m')) rest) = Some m).
    { intros seen' Hrest Hd.
      destruct (String.eqb_spec (name m) (name d)) as [Heq|_]; [|by eapply IH].
      apply (list_elem_of_fmap_2 name) in Hrest.
      apply first_seen_names in Hrest as [Hout _]. by rewrite Heq in Hout. }
    destruct (decide (name d ∈ seen)) as [Hin|Hout]; [by eapply Hstep|].
    apply elem_of_cons in Hm as [->|Hm]; [by rewrite String.eqb_refl|].
    eapply Hstep; [done|]. apply elem_of_union_r, elem_of_singleton. done.
Qed.

Lemma first_seen_covered (seen : gset string) (ds : list OllamaModel) :
  (∀ m, m ∈ ds → name m ∈ seen) → first_seen seen ds = [].
Proof.
  induction ds as [|m rest IH]; intros Hall; simpl; [done|].
  rewrite decide_True by (apply Hall; left).
  apply IH. intros m' Hm'. apply Hall. by right.
Qed.

Lemma first_seen_app (seen : gset string) (a b : list OllamaModel) :
  first_seen seen (a ++ b)
    = first_seen seen a ++ first_seen (seen ∪ list_to_set (name <$> a)) b.
Proof.
  revert seen. induction a as [|m a IH]; intros seen; simpl.
  - by rewrite (right_id_L ∅ (∪)).
  - destruct (decide (name m ∈ seen)) as [Hin|Hout].
    + rewrite IH. do 2 f_equal. set_solver.
    + rewrite IH. simpl. by rewrite (assoc_L (∪)).
Qed.

Section ModelsFacts.

Variable Date_parse : string → option Z.
Variable localeCompare : string → string → comparison.

#[local] Abbreviation entry_of now_ms :=
  (λ m : OllamaModel, (name m, card Date_parse now_ms m)).

Lemma map_has_elem_of (k : string) (entries : list (string * ModelCard)) :
  map_has k entries = true ↔ k ∈ entries.*1.
Proof.
  unfold map_has. rewrite existsb_exists, list_elem_of_fmap. split.
  - intros ([k' c] & Hin & Heq). apply String.eqb_eq in Heq. simpl in Heq.
    exists (k', c). by rewrite <- list_elem_of_In in Hin.
  - intros ([k' c] & -> & Hin). exists (k', c).
    rewrite <- list_elem_of_In. split; [done|]. apply String.eqb_refl.
Qed.

(** [set] on a key the map does not have appends the entry. *)
Lemma map_set_fresh (k : string) (x : ModelCard) (entries : list (string * ModelCard)) :
  map_has k entries = false → map_set k x entries = entries ++ [(k, x)].
Proof.
  induction entries as [|[k' y] rest IH]; simpl; [done|].
  destruct (String.eqb k k'); simpl; [done|].
  intros Hrest. by rewrite IH.
Qed.

Lemma fold_add_model (now_ms : Z) (ds : list OllamaModel)
    (entries : list (string * ModelCard)) :
  fold_left (add_model Date_parse now_ms) ds entries
    = entries ++ (entry_of now_ms <$> first_seen (list_to_set entries.*1) ds).
Proof.
  revert entries. induction ds as [|m rest IH]; intros entries; simpl.
  - by rewrite app_nil_r.
  - unfold add_model at 2.
    destruct (map_has (name m) entries) eqn:Hhas.
    + rewrite decide_True; [apply IH|].
      by apply elem_of_list_to_set, map_has_elem_of.
    + rewrite decide_False.
      * rewrite map_set_fresh, IH by done.
        rewrite fmap_app, list_to_set_app_L. simpl.
        rewrite (right_id_L ∅ (∪)), <- (assoc_L (++)). done.
      * rewrite elem_of_list_to_set, <- map_has_elem_of. by rewrite Hhas.
Qed.

Lemma fold_left_bind {A B C} (f : A → C → A) (g : B → list C) (items : list B) (a : A) :
  fold_left (λ acc b, fold_left f (g b) acc) items a = fold_left f (items ≫= g) a.
Proof.
  revert a. induction items as [|b items IH]; intros a; [done|].
  simpl. by rewrite fold_left_app, IH.
Qed.

(** The cards before sorting: one for each first descriptor, in the order in
    which the names are first listed. *)
Lemma aggregate_first_seen (now_ms : Z) (workers : list Worker) :
  (aggregate Date_parse now_ms workers).*2
    = card Date_parse now_ms <$> first_seen ∅ (descriptors workers).
Proof.
  unfold aggregate, descriptors.
  rewrite (fold_left_bind (add_model Date_parse now_ms) inventory), fold_add_model.
  simpl. by rewrite <- list_fmap_compose.
Qed.

(** The sort *)

Lemma insert_by_Permutation (cmp : ModelCard → ModelCard → comparison)
    (x : ModelCard) (l : list ModelCard) :
  insert_by cmp x l ≡ₚ x :: l.
Proof.
  induction l as [|y l IH]; simpl; [done|].
  destruct (cmp x y); [done..|].
  by rewrite IH, Permutation_swap.
Qed.

Lemma sort_by_Permutation (cmp : ModelCard → ModelCard → comparison)
    (l : list ModelCard) :
  sort_by cmp l ≡ₚ l.
Proof.
  induction l as [|x l IH]; simpl; [done|].
  by rewrite insert_by_Permutation, IH.
Qed.

(** [a] does not come after [b]. *)
Definition not_after (a b : ModelCard) : Prop := by_id localeCompare a b ≠ Gt.

(** Of two names one does not follow the other. *)
Definition comparator_total : Prop :=
  ∀ a b, localeCompare a b = Gt → localeCompare b a ≠ Gt.

Lemma insert_by_Sorted (x : ModelCard) (l : list ModelCard) :
  comparator_total →
  Sorted not_after l → Sorted not_after (insert_by (by_id localeCompare) x l).
Proof.
  intros Htotal. induction l as [|y l IH]; intros Hsorted; simpl.
  - by repeat constructor.
  - destruct (by_id localeCompare x y) eqn:Hxy.
    + constructor; [done|]. constructor. unfold not_after. by rewrite Hxy.
    + constructor; [done|]. constructor. unfold not_after. by rewrite Hxy.
    + apply Sorted_inv in Hsorted as [Hl Hhd].
      constructor; [by apply IH|].
      destruct l as [|z l]; simpl.
      * constructor. by apply Htotal.
      * destruct (by_id localeCompare x z) eqn:Hxz;
          constructor; solve [by apply Htotal | by inversion Hhd].
Qed.

Lemma sort_by_Sorted (l : list ModelCard) :
  comparator_total → Sorted not_after (sort_by (by_id localeCompare) l).
Proof.
  intros Htotal. induction l as [|x l IH]; simpl; [constructor|].
  by apply insert_by_Sorted.
Qed.

(** The cards of the answer *)

Lemma models_Permutation (now_ms : Z) (workers : list Worker) :
  models Date_parse localeCompare now_ms workers
    ≡ₚ card Date_parse now_ms <$> first_seen ∅ (descriptors workers).
Proof.
  unfold models. by rewrite sort_by_Permutation, aggregate_first_seen.
Qed.

Lemma models_ids (now_ms : Z) (workers : list Worker) :
  id <$> models Date_parse localeCompare now_ms workers
    ≡ₚ name <$> first_seen ∅ (descriptors workers).
Proof.
  rewrite models_Permutation, <- list_fmap_compose. done.
Qed.

Lemma models_ids_NoDup (now_ms : Z) (workers : list Worker) :
  NoDup (id <$> models Date_parse localeCompare now_ms workers).
Proof. rewrite models_ids. apply first_seen_NoDup. Qed.

Lemma descriptors_elem_of (workers : list Worker) (nm : string) :
  nm ∈ (name <$> descriptors workers)
  ↔ ∃ w m, w ∈ workers ∧ m ∈ inventory w ∧ name m = nm.
Proof.
  unfold descriptors. rewrite list_elem_of_fmap. split.
  - intros (m & -> & Hm). apply list_elem_of_bind in Hm as (w & Hm & Hw). eauto.
  - intros (w & m & Hw & Hm & <-). exists m. split; [done|].
    apply list_elem_of_bind. eauto.
Qed.

Lemma models_ids_elem_of (now_ms : Z) (workers : list Worker) (nm : string) :
  nm ∈ (id <$> models Date_parse localeCompare now_ms workers)
  ↔ ∃ w m, w ∈ workers ∧ m ∈ inventory w ∧ name m = nm.
Proof.
  rewrite models_ids, first_seen_names, descriptors_elem_of.
  split; [tauto|]. split; [apply not_elem_of_empty | done].
Qed.

Lemma models_first_descriptor (now_ms : Z) (workers : list Worker) (c : ModelCard) :
  c ∈ models Date_parse localeCompare now_ms workers →
  ∃ m, first_descriptor workers (id c) = Some m ∧ c = card Date_parse now_ms m.
Proof.
  rewrite models_Permutation. intros Hc.
  apply list_elem_of_fmap in Hc as (m & -> & Hm).
  exists m. split; [|done]. by apply first_seen_find in Hm.
Qed.

(** The comparator is an order on names: transitive, and two names neither
    of which follows the other are the same name. *)
Definition comparator_order : Prop :=
  (∀ a b c, localeCompare a b ≠ Gt → localeCompare b c ≠ Gt → localeCompare a c ≠ Gt)
  ∧ (∀ a b, localeCompare a b ≠ Gt → localeCompare b a ≠ Gt → a = b).

(** A worker listed a second time adds nothing. *)
Lemma models_duplicate_worker (now_ms : Z) (before after : list Worker) (w : Worker) :
  w ∈ before →
  models Date_parse localeCompare now_ms (before ++ w :: after)
    = models Date_parse localeCompare now_ms (before ++ after).
Proof.
  intros Hw. unfold models. rewrite !aggregate_first_seen. do 2 f_equal.
  unfold descriptors. rewrite !bind_app, bind_cons, !first_seen_app. f_equal.
  assert (Hsub : ∀ m, m ∈ inventory w →
            name m ∈@{gset string} list_to_set (name <$> before ≫= inventory)).
  { intros m Hm. apply elem_of_list_to_set.
    apply list_elem_of_fmap_2, list_elem_of_bind. eauto. }
  rewrite first_seen_covered by (intros m Hm; apply elem_of_union_r; auto).
  simpl. f_equal. apply (anti_symm (⊆)); [|apply union_subseteq_l].
  apply union_least; [done|].
  intros nm Hnm. apply elem_of_list_to_set in Hnm.
  apply list_elem_of_fmap in Hnm as (m & -> & Hm).
  apply elem_of_union_r. auto.
Qed.

(** The names listed do not depend on the order of the workers. *)
Lemma models_ids_workers_Permutation (now_ms : Z) (workers workers' : list Worker) :
  workers ≡ₚ workers' →
  id <$> models Date_parse localeCompare now_ms workers
    ≡ₚ id <$> models Date_parse localeCompare now_ms workers'.
Proof.
  intros Hperm. apply NoDup_Permutation; [apply models_ids_NoDup..|].
  intros nm. rewrite !models_ids_elem_of.
  by setoid_rewrite Hperm.
Qed.

(** C3, as the code has it.  The handler answers with one card for each
    distinct model name in the inventories of all the workers that the
    registry lists, whatever their liveness; the cards are sorted by [id]
    with [localeCompare]; each has [owned_by] equal to [gridllm], and its
    [created] is the modification time, in seconds, of the first descriptor
    listed under its name. *)
Theorem models_lists_every_worker (now_ms : Z) (workers : list Worker) :
  comparator_total →
  let cards := models Date_parse localeCompare now_ms workers in
  get_models Date_parse localeCompare now_ms workers = Sent [json (ModelList cards)]
  ∧ (∀ nm, nm ∈ (id <$> cards)
           ↔ ∃ w m, w ∈ workers ∧ m ∈ inventory w ∧ name m = nm)
  ∧ NoDup (id <$> cards)
  ∧ Sorted not_after cards
  ∧ Forall (λ c, owned_by c = "gridllm"
                 ∧ ∃ m, first_descriptor workers (id c) = Some m
                        ∧ created c = created_of Date_parse now_ms m) cards
  ∧ (∀ m stamp, modified_at m = Some stamp → stamp ≠ "" →
       created_of Date_parse now_ms m = (λ ms, (ms / 1000)%Z) <$> Date_parse stamp).
Proof.
  intros Htotal cards. split; [done|].
  split; [apply models_ids_elem_of|].
  split; [apply models_ids_NoDup|].
  split; [by apply sort_by_Sorted|].
  split.
  - apply Forall_forall. intros c Hc.
    apply models_first_descriptor in Hc as (m & Hfirst & ->). eauto.
  - intros m stamp Hstamp Hne. unfold created_of. rewrite Hstamp.
    apply String.eqb_neq in Hne. by rewrite Hne.
Qed.

(** C4, as the code has it.  Under each name the card is made from the first
    descriptor listed with that name, in the order in which the workers and
    their models are enumerated, not from the newest one.  The answer is
    sorted and has one card per name; the names do not depend on the order
    of the workers, and they form the same list when the comparator is an
    order; a worker listed again after itself, with the same inventory,
    leaves the answer as it is. *)
Theorem first_descriptor_wins (now_ms : Z) (workers : list Worker) :
  comparator_total →
  let cards := models Date_parse localeCompare now_ms workers in
  (∀ c, c ∈ cards →
        ∃ m, first_descriptor workers (id c) = Some m ∧ c = card Date_parse now_ms m)
  ∧ NoDup (id <$> cards)
  ∧ Sorted not_after cards
  ∧ (∀ workers', workers ≡ₚ workers' →
       id <$> cards ≡ₚ id <$> models Date_parse localeCompare now_ms workers')
  ∧ (∀ workers', workers ≡ₚ workers' → comparator_order →
       id <$> cards = id <$> models Date_parse localeCompare now_ms workers')
  ∧ (∀ before after w, workers = before ++ after → w ∈ before →
       models Date_parse localeCompare now_ms (before ++ w :: after) = cards).
Proof.
  intros Htotal cards.
  split; [apply models_first_descriptor|].
  split; [apply models_ids_NoDup|].
  split; [by apply sort_by_Sorted|].
  split; [apply models_ids_workers_Permutation|].
  split.
  - intros workers' Hperm [Htrans Hanti].
    set (R := λ a b : string, localeCompare a b ≠ Gt).
    assert (Transitive R) by (intros a b c; apply Htrans).
    assert (AntiSymm (=) R) by (intros a b; apply Hanti).
    apply (Sorted_unique R).
    + apply (Sorted_fmap id not_after R); [done|]. by apply sort_by_Sorted.
    + apply (Sorted_fmap id not_after R); [done|]. by apply sort_by_Sorted.
    + by apply models_ids_workers_Permutation.
  - intros before after w -> Hw. by apply models_duplicate_worker.
Qed.

End ModelsFacts.

(** *** A sample registry *)

(** [new Date(text).getTime()] on the time stamps of the samples. *)
Definition sample_date (text : string) : option Z :=
  (list_to_map [ ("2024-01-01T00:00:00Z", 1704067200000%Z);
                 ("2024-06-01T00:00:00Z", 1717200000000%Z) ]
   : gmap string Z) !! text.

(** The same model, pulled later. *)
Definition m1_newer : OllamaModel :=
  {| name := "m1"; modified_at := Some "2024-06-01T00:00:00Z" |}.

Definition m2 : OllamaModel := {| name := "m2"; modified_at := None |}.

Definition sample_workers : list Worker :=
  [ worker_of "W1" ready [m2; m1];
    worker_of "W2" draining [m1_newer];
    {| workerId := "W3"; liveness := joining; capabilities := None |} ].

(** Comparison by character codes is a total order on names. *)
Lemma compare_total : comparator_total String.compare.
Proof.
  intros a b Hab. rewrite String.compare_antisym, Hab. done.
Qed.

Example models_sample :
  models sample_date String.compare 1700000000999 sample_workers
    = [ card sample_date 1700000000999 m1; card sample_date 1700000000999 m2 ]
  ∧ created <$> models sample_date String.compare 1700000000999 sample_workers
    = [ Some 1704067200%Z; Some 1700000000%Z ].
Proof. by vm_compute. Qed.

(** C3, where the claim fails: the one worker of the registry is [lost], no
    model is available on a ready worker, and the list has its model. *)
Lemma models_lists_lost_worker :
  id <$> models sample_date String.compare 0 [worker_of "W1" lost [m1]] = ["m1"]
  ∧ getAllAvailableModels [worker_of "W1" lost [m1]] = []
  ∧ filter (λ w, is_ready w = true) [worker_of "W1" lost [m1]] = [].
Proof. by vm_compute. Qed.

Lemma models_lists_every_worker_witness :
  comparator_total String.compare
  ∧ NoDup (id <$> models sample_date String.compare 0 sample_workers)
  ∧ Sorted (not_after String.compare)
      (models sample_date String.compare 0 sample_workers).
Proof.
  split; [exact compare_total|].
  destruct (models_lists_every_worker sample_date String.compare 0 sample_workers
              compare_total) as (_ & _ & Hnodup & Hsorted & _).
  done.
Defined.

(** C4, where the claim fails: two workers have [m1], the one listed first
    has the older descriptor, and the card has the older time; with the
    workers in the other order it has the newer one. *)
Lemma first_listed_not_newest :
  created <$> models sample_date String.compare 0
                [worker_of "W1" ready [m1]; worker_of "W2" ready [m1_newer]]
    = [Some 1704067200%Z]
  ∧ created <$> models sample_date String.compare 0
                  [worker_of "W2" ready [m1_newer]; worker_of "W1" ready [m1]]
    = [Some 1717200000%Z].
Proof. by vm_compute. Qed.

Lemma first_descriptor_wins_witness :
  comparator_total String.compare
  ∧ (∀ c, c ∈ models sample_date String.compare 0 sample_workers →
          ∃ m, first_descriptor sample_workers (id c) = Some m
               ∧ c = card sample_date 0 m)
  ∧ models sample_date String.compare 0
      (sample_workers ++ [worker_of "W1" ready [m2; m1]])
    = models sample_date String.compare 0 sample_workers.
Proof.
  split; [exact compare_total|].
  destruct (first_descriptor_wins sample_date String.compare 0 sample_workers
              compare_total) as (Hfirst & _ & _ & _ & _ & Hdup).
  split; [exact Hfirst|].
  apply (Hdup sample_workers [] (worker_of "W1" ready [m2; m1])).
  - by rewrite app_nil_r.
  - by left.
Defined.

(** ** Further properties of the routes *)

(** *** POST /v1/completions: what the handler answers *)

Section CompletionsAnswers.

Variable Scheduler : Type.
Variable submitAndWait :
  InferenceRequest → Scheduler → Scheduler * (string + InferenceResponse).
Variable submitStreamingJob :
  InferenceRequest → Scheduler → Scheduler * list Callback * option string.
Variable validate : JsVal → JoiError + CompletionsRequest.

#[local] Abbreviation handle :=
  (post_completions Scheduler submitAndWait submitStreamingJob validate).


(** X13.  The handler hands at most one job to the scheduler, and only for a
    body that passed validation and a model that [validateModelExists]
    accepted.  The job has the fresh uuid as its id, the model, the prompt
    as one string and the stream flag of the request, priority [medium] and
    a timeout of 300000 ms. *)
Theorem at_most_one_job_is_submitted (ctx : Context) (workers : list Worker)
    (s : Scheduler) :
  submitted (handle ctx workers s) = []
  ∨ ∃ v,
      validate (body ctx) = inr v
      ∧ validateModelExists workers (model v) = None
      ∧ submitted (handle ctx workers s) = [inferenceRequest ctx v]
      ∧ req_id (inferenceRequest ctx v) = uuid ctx
      ∧ req_model (inferenceRequest ctx v) = model v
      ∧ req_prompt (inferenceRequest ctx v) = convertPromptToString (prompt v)
      ∧ req_stream (inferenceRequest ctx v) = stream v
      ∧ req_priority (inferenceRequest ctx v) = "medium"
      ∧ req_timeout (inferenceRequest ctx v) = 300000%Z.
Proof.
  unfold post_completions.
  destruct (validate (body ctx)) as [e|v]; [by left|].
  destruct (validateModelExists workers (model v)) as [[code message]|] eqn:Hmodel;
    [by left|].
  right. exists v. split; [done|]. split; [done|].
  split; [|done].
  destruct (stream v).
  - by destruct (submitStreamingJob _ s) as [[s' calls] rejection].
  - by destruct (submitAndWait _ s) as [s' [message|result]].
Qed.

(** X14.  Without streaming, the answer follows the scheduler.  A result
    gives one completions object: its id is [cmpl-] and the id of the job,
    it has one choice, with index 0 and no logprobs, whose text is the
    response (after the prompt when [echo] is set), and a usage whose total
    is the sum of the two counts, a missing count being zero.  An error of
    the scheduler gives status 500 and a [server_error] with its message. *)
Theorem non_streaming_answer (ctx : Context) (workers : list Worker) (s : Scheduler)
    (v : CompletionsRequest) :
  validate (body ctx) = inr v →
  validateModelExists workers (model v) = None →
  stream v = false →
  scheduler (handle ctx workers s) = (submitAndWait (inferenceRequest ctx v) s).1
  ∧ match (submitAndWait (inferenceRequest ctx v) s).2 with
    | inr result =>
        ∃ c choice u,
          outcome (handle ctx workers s) = Sent [json (Completion c)]
          ∧ cmpl_id c = "cmpl-" +:+ req_id (inferenceRequest ctx v)
          ∧ cmpl_object c = "text_completion"
          ∧ cmpl_model c = model v
          ∧ cmpl_created c = (now_ms ctx / 1000)%Z
          ∧ choices c = [choice]
          ∧ index choice = 0%Z ∧ choice_logprobs choice = None
          ∧ text choice
            = (if echo v then convertPromptToString (prompt v) else "")
                +:+ default "" (response result)
          ∧ usage c = Some u
          ∧ prompt_tokens u = default 0%Z (prompt_eval_count result)
          ∧ completion_tokens u = default 0%Z (eval_count result)
          ∧ total_tokens u = (prompt_tokens u + completion_tokens u)%Z
    | inl message =>
        outcome (handle ctx workers s)
          = Sent [status 500; json (ErrorBody (server_error message))]
    end.
Proof.
  intros Hvalid Hmodel Hstream. unfold post_completions.
  rewrite Hvalid, Hmodel, Hstream.
  destruct (submitAndWait (inferenceRequest ctx v) s) as [s' [message|result]]; simpl.
  - done.
  - split; [done|]. eexists _, _, _. split; [reflexivity|]. simpl.
    repeat split. by destruct (echo v).
Qed.

End CompletionsAnswers.




(** A scheduler that answers at once. *)
Definition answering (result : InferenceResponse) (request : InferenceRequest)
    (queue : list InferenceRequest)
  : list InferenceRequest * (string + InferenceResponse) :=
  (queue, inr result).

Lemma non_streaming_answer_witness :
  ∃ c, outcome (post_completions (list InferenceRequest) (answering cut_result)
                  queue_submitStreamingJob
                  (λ _, inr {| model := "m1"; prompt := PromptString "Hi";
                               best_of := 1; echo := true; frequency_penalty := 0;
                               logit_bias := JObj []; logprobs := None;
                               max_tokens := 16; n := 1; presence_penalty := 0;
                               seed := None; stop := None; stream := false;
                               stream_options := None; suffix := None;
                               temperature := 1; top_p := 1; user := None |})
                  sample_context [worker_of "W1" ready [m1]] [])
         = Sent [json (Completion c)]
       ∧ text <$> choices c = ["HiHello"]
       ∧ total_tokens <$> usage c = Some 17%Z.
Proof.
  set (v := {| model := "m1"; prompt := PromptString "Hi"; best_of := 1;
               echo := true; frequency_penalty := 0; logit_bias := JObj [];
               logprobs := None; max_tokens := 16; n := 1; presence_penalty := 0;
               seed := None; stop := None; stream := false; stream_options := None;
               suffix := None; temperature := 1; top_p := 1; user := None |}).
  destruct (non_streaming_answer (list InferenceRequest) (answering cut_result)
              queue_submitStreamingJob (λ _, inr v) sample_context
              [worker_of "W1" ready [m1]] [] v eq_refl eq_refl eq_refl)
    as [_ (c & choice & u & Hsent & _ & _ & _ & _ & Hchoices & _ & _ & Htext
           & Husage & Hprompt & Hcompletion & Htotal)].
  exists c. split; [done|]. rewrite Hchoices, Husage. simpl.
  rewrite Htext, Htotal, Hprompt, Hcompletion. done.
Defined.

(** *** The frames of a stream *)

(** What every call the callbacks make on [res] looks like: they only write
    and end, and a completions frame has the id, the time and the model of
    the stream and one choice, with index 0 and no logprobs. *)
Definition stream_call (ctx : Context) (v : CompletionsRequest) (created : Z)
    (op : ResOp) : Prop :=
  match op with
  | write (Completion c) =>
      cmpl_id c = "cmpl-" +:+ uuid ctx
      ∧ cmpl_object c = "text_completion"
      ∧ cmpl_created c = created
      ∧ cmpl_model c = model v
      ∧ ∃ choice, choices c = [choice]
                  ∧ index choice = 0%Z ∧ choice_logprobs choice = None
  | write (Sentinel s) => s = "[DONE]"
  | write (ErrorBody e) => error_type e = "server_error" ∧ error_code e = "internal_error"
  | end_ => True
  | _ => False
  end.

(** X15.  Whatever callbacks the scheduler invokes, in whatever order, the
    handler's callbacks only write frames and end the response: they never
    set a status or a header and never send a JSON body.  Every completions
    frame of one stream has the same id ([cmpl-] and the job id), the same
    creation time and model, and exactly one choice with index 0 and null
    logprobs. *)
Theorem stream_frames_share_identity (ctx : Context) (v : CompletionsRequest)
    (promptText : string) (created : Z) (calls : list Callback) (totalText : string) :
  Forall (stream_call ctx v created)
    (run_callbacks ctx v promptText created totalText calls).
Proof.
  revert totalText. induction calls as [|call calls IH]; intros totalText; simpl.
  - constructor.
  - destruct call as [chunk|result|message]; simpl.
    + constructor; [|apply IH]. simpl. repeat split. by eexists.
    + constructor; [|constructor; [done|constructor; [done|apply IH]]].
      simpl. destruct (wants_usage v); simpl; repeat split; by eexists.
    + constructor; [done|]. constructor; [done|apply IH].
Qed.

Lemma echo_texts_off (promptText : string) (nothing_yet : bool) (deltas : list string) :
  echo_texts false promptText nothing_yet deltas = deltas.
Proof.
  revert nothing_yet. induction deltas as [|d deltas IH]; intros b; [done|].
  simpl. by rewrite IH.
Qed.

(** X16.  Without [echo] the text of each content frame is the delta of its
    chunk, a chunk without [response] giving the empty text: the prompt is in
    no frame. *)
Theorem echo_off_frames_are_the_deltas (ctx : Context) (v : CompletionsRequest)
    (promptText : string) (created : Z) (chunks : list StreamResponse) :
  echo v = false →
  frame_texts (run_callbacks ctx v promptText created "" (Chunk <$> chunks))
    = (λ c, default "" (chunk_response c)) <$> chunks.
Proof.
  intros Hecho. rewrite onChunk_texts, Hecho. apply echo_texts_off.
Qed.

Lemma echo_off_frames_are_the_deltas_witness :
  frame_texts (run_callbacks sample_context tuned_request "Hi" 1700000000 ""
                 (Chunk <$> [delta ""; {| chunk_response := None |}; delta "He"]))
    = [""; ""; "He"].
Proof.
  by rewrite (echo_off_frames_are_the_deltas sample_context tuned_request "Hi"
                1700000000 [delta ""; {| chunk_response := None |}; delta "He"] eq_refl).
Defined.

(** X17.  A stream that fails ends with an error frame and [end]: after the
    content frames the handler writes the [server_error] object with the
    message of the error and ends the response.  No final frame with a
    finish reason and no [[DONE]] sentinel is written. *)
Theorem failed_stream_has_no_sentinel (ctx : Context) (v : CompletionsRequest)
    (promptText : string) (created : Z) (chunks : list StreamResponse)
    (message : string) :
  ∃ frames : list TextCompletion,
    run_callbacks ctx v promptText created "" ((Chunk <$> chunks) ++ [Error message])
      = ((λ f, write (Completion f)) <$> frames)
          ++ [write (ErrorBody (server_error message)); end_]
    ∧ length frames = length chunks
    ∧ Forall (λ f, Forall (λ ch, finish_reason ch = None) (choices f)) frames
    ∧ ∀ s, write (Sentinel s)
           ∉ run_callbacks ctx v promptText created ""
               ((Chunk <$> chunks) ++ [Error message]).
Proof.
  generalize "" as totalText.
  induction chunks as [|c chunks IH]; intros totalText.
  - exists []. repeat split; [constructor|].
    intros s Hin. simpl in Hin.
    repeat (apply elem_of_cons in Hin as [?|Hin]; [done|]). by apply elem_of_nil in Hin.
  - destruct (IH (totalText +:+ default "" (chunk_response c)))
      as (frames & Hrun & Hlen & Hframes & Hsentinel).
    eexists (_ :: frames).
    rewrite !fmap_cons, <- app_comm_cons. cbn [run_callbacks onChunk app].
    rewrite Hrun. split; [reflexivity|]. split; [by rewrite length_cons, Hlen|].
    split.
    + constructor; [|done]. simpl. by repeat constructor.
    + intros s Hin. apply elem_of_cons in Hin as [?|Hin]; [done|].
      rewrite <- Hrun in Hin. by apply Hsentinel in Hin.
Qed.

(** *** The prompt *)

(** X18.  A prompt given as a non-empty array of strings is joined with
    newlines, so that, when no string of the array holds a newline, splitting
    the prompt at the newlines gives the array back; the array of one string
    is that string, and the empty array is the empty prompt. *)
Theorem prompt_array_is_joined_by_newlines (items : list string) :
  Forall (λ s, OllamaService.split_nl s = [s]) items →
  items ≠ [] →
  OllamaService.split_nl (convertPromptToString (PromptStrings items)) = items
  ∧ (∀ s, convertPromptToString (PromptStrings [s]) = convertPromptToString (PromptString s))
  ∧ convertPromptToString (PromptStrings []) = "".
Proof.
  intros Hitems Hne. split; [|by split].
  unfold convertPromptToString. revert Hne.
  induction Hitems as [|s items Hs Hitems IH]; intros Hne; [done|].
  destruct items as [|s' items]; [done|].
  change (String.concat (String "010" "") (s :: s' :: items))
    with (s +:+ String "010" (String.concat (String "010" "") (s' :: items))).
  rewrite OllamaService.split_nl_line by done. f_equal. by apply IH.
Qed.

Lemma prompt_array_is_joined_by_newlines_witness :
  OllamaService.split_nl (convertPromptToString (PromptStrings ["one"; ""; "three"]))
    = ["one"; ""; "three"].
Proof.
  apply (prompt_array_is_joined_by_newlines ["one"; ""; "three"]).
  - by repeat constructor.
  - done.
Defined.

(** *** The options of a plain request *)

Lemma put_when_empty (k : string) (x : option JsVal) (o : gmap string JsVal) :
  put_when k x o = ∅ ↔ x = None ∧ o = ∅.
Proof.
  destruct x as [x|]; simpl.
  - split; [|by intros [? _]]. intros Hempty.
    by apply insert_non_empty in Hempty.
  - naive_solver.
Qed.

Lemma when_None (c : bool) (x : JsVal) : when c x = None ↔ c = false.
Proof. by destruct c. Qed.

(** X19.  The job carries no option at all exactly when the request leaves
    every sampling field at its default: [temperature] and [top_p] equal to
    1, [max_tokens] 16, no [seed], no [stop], both penalties zero.  The
    default [max_tokens] of 16 is thus not forwarded as [num_predict]. *)
Theorem no_options_iff_defaults (v : CompletionsRequest) :
  ollamaOptions v = ∅
  ↔ (temperature v == 1)%Q ∧ (top_p v == 1)%Q ∧ max_tokens v = 16%Z
    ∧ seed v = None ∧ stop v = None
    ∧ (frequency_penalty v == 0)%Q ∧ (presence_penalty v == 0)%Q.
Proof.
  unfold ollamaOptions. cbv zeta.
  rewrite !put_when_empty, !when_None, !negb_false_iff, !Qeq_bool_iff, Z.eqb_eq.
  rewrite !fmap_None. naive_solver.
Qed.

(** *** GET /v1/models: more on the list *)

Lemma first_seen_length (ds : list OllamaModel) :
  length (first_seen ∅ ds) = length (remove_dups (name <$> ds)).
Proof.
  rewrite <- (length_fmap name (first_seen ∅ ds)).
  apply Permutation_length, NoDup_Permutation.
  - apply first_seen_NoDup.
  - apply NoDup_remove_dups.
  - intros nm. rewrite first_seen_names, elem_of_remove_dups.
    split; [tauto|]. split; [apply not_elem_of_empty | done].
Qed.

(** The part of [first_seen] that is already listed stays in front. *)
Lemma first_seen_snoc (ds extra : list OllamaModel) :
  first_seen ∅ (ds ++ extra)
    = first_seen ∅ ds ++ first_seen (list_to_set (name <$> ds)) extra.
Proof. by rewrite first_seen_app, (left_id_L ∅ (∪)). Qed.

Lemma first_seen_elem_of (seen : gset string) (ds : list OllamaModel) (m : OllamaModel) :
  m ∈ first_seen seen ds → m ∈ ds ∧ name m ∉ seen.
Proof.
  revert seen. induction ds as [|d ds IH]; intros seen; simpl.
  - by rewrite elem_of_nil.
  - destruct (decide (name d ∈ seen)) as [Hin|Hout].
    + intros Hm. apply IH in Hm as [? ?]. split; [by right | done].
    + rewrite elem_of_cons. intros [->|Hm]; [split; [by left | done]|].
      apply IH in Hm as [? Hnot]. split; [by right|].
      rewrite not_elem_of_union in Hnot. tauto.
Qed.

Section ModelsMore.

Variable Date_parse : string → option Z.
Variable localeCompare : string → string → comparison.

#[local] Abbreviation models' := (models Date_parse localeCompare).

(** X20.  The list is empty exactly when no worker of the registry has a
    model: an empty registry, or workers without capabilities or with an
    empty or missing inventory, give [data: []] and not an error. *)
Theorem models_empty_iff (now_ms : Z) (workers : list Worker) :
  (models' now_ms workers = [] ↔ Forall (λ w, inventory w = []) workers)
  ∧ get_models Date_parse localeCompare now_ms [] = Sent [json (ModelList [])]
  ∧ (∀ w, capabilities w = None ∨ capabilities w = Some {| availableModels := None |}
          → models' now_ms (workers ++ [w]) = models' now_ms workers).
Proof.
  split; [|split; [done|]].
  - split.
    + intros Hempty. apply Forall_forall. intros w Hw.
      destruct (inventory w) as [|m ms] eqn:Hinv; [done|].
      assert (Hin : name m ∈ (id <$> models' now_ms workers)).
      { apply models_ids_elem_of. exists w, m. rewrite Hinv.
        split; [done|]. split; [by left | done]. }
      rewrite Hempty in Hin. by apply elem_of_nil in Hin.
    + intros Hall. apply Permutation_nil_r.
      rewrite models_Permutation.
      assert (descriptors workers = []) as ->; [|done].
      unfold descriptors. induction Hall as [|w ws Hw Hws IH]; [done|].
      by rewrite bind_cons, Hw, IH.
  - intros w Hw. unfold models. rewrite !aggregate_first_seen. do 2 f_equal.
    unfold descriptors. rewrite bind_app, bind_cons.
    assert (inventory w = []) as ->
      by (unfold inventory; destruct Hw as [-> | ->]; done).
    by rewrite !app_nil_r.
Qed.

(** X21.  There are as many cards as distinct model names in the registry.
    Every card has [object] equal to [model], [root] equal to its [id], a
    null [parent] and no [permission].  Its [created] falls back to the
    current time, in seconds, when the first descriptor under its name has
    no modification time or an empty one, and is NaN when the time cannot
    be read as a date. *)
Theorem cards_fields (now_ms : Z) (workers : list Worker) :
  length (models' now_ms workers)
    = length (remove_dups (name <$> descriptors workers))
  ∧ Forall (λ c,
      object c = "model" ∧ root c = id c ∧ parent c = None ∧ permission c = []
      ∧ ∃ m, first_descriptor workers (id c) = Some m
             ∧ (modified_at m = None ∨ modified_at m = Some ""
                → created c = Some (now_ms / 1000)%Z)
             ∧ (∀ stamp, modified_at m = Some stamp → stamp ≠ "" →
                  Date_parse stamp = None → created c = None))
      (models' now_ms workers).
Proof.
  split.
  - rewrite models_Permutation, length_fmap. apply first_seen_length.
  - apply Forall_forall. intros c Hc.
    apply models_first_descriptor in Hc as (m & Hfirst & ->). simpl.
    repeat split. exists m. split; [done|]. unfold created_of. split.
    + by intros [-> | ->].
    + intros stamp -> Hne Hdate. apply String.eqb_neq in Hne.
      by rewrite Hne, Hdate.
Qed.

(** X22.  A worker all of whose model names are already listed by the workers
    before it changes nothing in the answer, whatever its descriptors say:
    its modification times are never looked at. *)
Theorem known_names_change_nothing (now_ms : Z) (before after : list Worker)
    (w : Worker) :
  (∀ m, m ∈ inventory w → name m ∈ (name <$> descriptors before)) →
  models' now_ms (before ++ w :: after) = models' now_ms (before ++ after).
Proof.
  intros Hknown. unfold models. rewrite !aggregate_first_seen. do 2 f_equal.
  unfold descriptors in *. rewrite !bind_app, bind_cons, !first_seen_app. f_equal.
  assert (Hsub : ∀ m, m ∈ inventory w →
            name m ∈@{gset string} list_to_set (name <$> before ≫= inventory)).
  { intros m Hm. apply elem_of_list_to_set. auto. }
  rewrite first_seen_covered by (intros m Hm; apply elem_of_union_r; auto).
  simpl. f_equal. apply (anti_symm (⊆)); [|apply union_subseteq_l].
  apply union_least; [done|].
  intros nm Hnm. apply elem_of_list_to_set in Hnm.
  apply list_elem_of_fmap in Hnm as (m & -> & Hm).
  apply elem_of_union_r. auto.
Qed.

(** X23.  A worker added at the end of the registry never changes or removes
    a card: every card of the old answer is in the new one, and a card of
    the new answer that is not in the old one is the card of a descriptor of
    the new worker under a name that no other worker has. *)
Theorem new_worker_only_adds_cards (now_ms : Z) (workers : list Worker) (w : Worker) :
  (∀ c, c ∈ models' now_ms workers → c ∈ models' now_ms (workers ++ [w]))
  ∧ (∀ c, c ∈ models' now_ms (workers ++ [w]) →
       c ∈ models' now_ms workers
       ∨ ∃ m, m ∈ inventory w ∧ c = card Date_parse now_ms m
              ∧ id c ∉ (id <$> models' now_ms workers)).
Proof.
  assert (Hsplit : models' now_ms (workers ++ [w])
                   ≡ₚ models' now_ms workers
                      ++ (card Date_parse now_ms
                            <$> first_seen (list_to_set (name <$> descriptors workers))
                                  (inventory w))).
  { rewrite !models_Permutation. unfold descriptors.
    rewrite bind_app, bind_cons. simpl. rewrite app_nil_r, first_seen_snoc.
    by rewrite fmap_app. }
  split.
  - intros c Hc. rewrite Hsplit. apply elem_of_app. by left.
  - intros c Hc. rewrite Hsplit in Hc. apply elem_of_app in Hc as [Hc|Hc]; [by left|].
    right. apply list_elem_of_fmap in Hc as (m & -> & Hm).
    apply first_seen_elem_of in Hm as [Hm Hnew].
    exists m. split; [done|]. split; [done|]. simpl.
    intros Hid. apply Hnew, elem_of_list_to_set.
    apply models_ids_elem_of in Hid as (w' & m' & Hw' & Hm' & Hname).
    rewrite <- Hname. apply list_elem_of_fmap_2.
    apply list_elem_of_bind. eauto.
Qed.

End ModelsMore.

Lemma known_names_change_nothing_witness :
  models sample_date String.compare 0
    ([worker_of "W1" ready [m2; m1]] ++ worker_of "W2" draining [m1_newer] :: [])
  = models sample_date String.compare 0 ([worker_of "W1" ready [m2; m1]] ++ []).
Proof.
  apply (known_names_change_nothing sample_date String.compare 0
           [worker_of "W1" ready [m2; m1]] [] (worker_of "W2" draining [m1_newer])).
  intros m Hm. apply list_elem_of_singleton in Hm as ->.
  by repeat first [apply list_elem_of_here | apply list_elem_of_further].
Defined.

(** *** A stream and a plain response *)

(** The texts of a list put end to end. *)
Definition joined (texts : list string) : string := foldr String.append "" texts.

(** X24.  A stream and a plain response agree on the text and on the usage:
    when [echo] is off, or the first delta is not empty, the texts of the
    content frames put end to end are the text of the plain response to the
    same output, and the usage of the final frame of a stream that asks for
    it is the usage of the plain response. *)
Theorem stream_agrees_with_plain_response (ctx : Context) (v : CompletionsRequest)
    (promptText : string) (created : Z) (deltas : list string)
    (result : InferenceResponse) :
  echo v = false ∨ (∃ d rest, deltas = d :: rest ∧ d ≠ "") →
  response result = Some (joined deltas) →
  [joined (frame_texts (run_callbacks ctx v promptText created ""
                          (Chunk <$> (delta <$> deltas))))]
    = text <$> choices (convertToOpenAICompletionsResponse result (model v)
                          (uuid ctx) promptText (echo v) created)
  ∧ usage (finalChunk ctx v created result)
    = usage (convertToOpenAICompletionsResponse result (model v) (uuid ctx)
               promptText (echo v) created).
Proof.
  intros Hecho Hresponse. split; [|done].
  rewrite onChunk_texts, <- list_fmap_compose. simpl. rewrite Hresponse. simpl.
  assert ((λ c, default "" (chunk_response c)) ∘ delta = Datatypes.id) as -> by done.
  rewrite list_fmap_id. f_equal.
  destruct Hecho as [-> | (d & rest & -> & Hd)].
  - by rewrite echo_texts_off.
  - destruct (echo v); [|by rewrite echo_texts_off].
    rewrite echo_once_after_text by done. simpl.
    by rewrite OllamaService.append_assoc.
Qed.

Lemma stream_agrees_with_plain_response_witness :
  [joined (frame_texts (run_callbacks sample_context sample_request "Hi" 1700000000 ""
                          (Chunk <$> (delta <$> ["He"; ""; "llo"]))))]
    = ["HiHello"].
Proof.
  destruct (stream_agrees_with_plain_response sample_context sample_request "Hi"
              1700000000 ["He"; ""; "llo"]
              {| response := Some "Hello"; done_reason := None;
                 prompt_eval_count := Some 1%Z; eval_count := Some 2%Z |})
    as [Htext _].
  - right. by exists "He", [""; "llo"].
  - reflexivity.
  - by rewrite Htext.
Defined.

End OpenAI.
